(** * Terramate stack selection: base revision, repository checks, list filters

    A shallow embedding of the [cli] package's [project] methods
    ([defaultBaseRev], [setDefaults], [checkDefaultRemote],
    [checkRemoteDefaultBranchIsReachable]) and of the [list] command's
    filter pipeline, with the properties the specification states about
    them. *)

From Stdlib Require Import Ascii.
From stdpp Require Import base option list sorting gmap strings.

(** ** Go errors

    A Go [error] is kept as the call that built it: [fmt.Errorf] with its
    format string and arguments, [errors.E] with its kind and message, or
    the failure of a git command. *)

Inductive error : Type :=
  | CmdError (msg : string)
  | Errorf (format : string) (args : list fmtarg)
  | ErrorsE (kind : string) (msg : string)
with fmtarg : Type :=
  | ArgString (s : string)
  | ArgStrings (l : list string)
  | ArgError (e : error).

(** ** The git wrapper *)

Module git.

(** Modelled from the spec: the [git.Git] wrapper is not part of the
    analysed sources; the spec gives its contract, each query "returning
    a value-or-error". A Go call [(v, err)] is [Ok v] when [err] is nil
    and [Err err] otherwise. *)
Inductive result (A : Type) : Type :=
  | Ok (v : A)
  | Err (e : error).
Arguments Ok {A} v.
Arguments Err {A} e.

(** [v, _ := f()]: the error is dropped and the value kept, which is the
    zero value of its type when the call failed. *)
Definition discard {A : Type} (zero : A) (r : result A) : A :=
  match r with
  | Ok v => v
  | Err _ => zero
  end.

Definition failed {A : Type} (r : result A) : bool :=
  match r with
  | Ok _ => false
  | Err _ => true
  end.

Record Remote : Type := mkRemote {
  Name : string;
  Branches : list string
}.

Record Ref : Type := mkRef {
  CommitID : string
}.

(** Modelled from the spec: the queries of the GitHistoryPort, as
    observed during one command invocation. *)
Record Git : Type := mkGit {
  RevParse : string → result string;
  CurrentBranch : result string;
  IsAncestor : string → string → result bool;
  IsFirstParentAncestor : string → string → result bool;
  FindForkPoint : string → string → result string;
  MergeBase : string → string → result string;
  Remotes : result (list Remote);
  FetchRemoteRev : string → string → result Ref;
  URL : string → result string
}.

End git.

(** ** Configuration *)

Module hcl.

Record GitConfig : Type := mkGitConfig {
  DefaultBranchBaseRef : string;
  DefaultBranch : string;
  DefaultRemote : string
}.

(** The pointers of the configuration tree are options: [None] is nil. *)
Record RootConfig : Type := mkRootConfig {
  rc_Git : option GitConfig
}.

Record Terramate : Type := mkTerramate {
  tm_Config : option RootConfig
}.

Record Config : Type := mkConfig {
  cfg_Terramate : option Terramate
}.

(** [cfg.Terramate.Config.Git], nil when a pointer on the way is nil. *)
Definition git_of (cfg : Config) : option GitConfig :=
  tm ← cfg_Terramate cfg; rc ← tm_Config tm; rc_Git rc.

End hcl.

(** ** The project *)

(** [gitcfg] is the node [p.root.Tree().Node.Terramate.Config.Git], which
    [setDefaults] makes non-nil before any other method runs; the [git]
    sub-struct is flattened into the record. *)
Record project : Type := mkProject {
  rootdir : string;
  wd : string;
  isRepo : bool;
  gitcfg : hcl.GitConfig;
  baseRef : string;
  normalizedRepo : string;
  git_wrapper : git.Git;
  git_headCommit : string;
  git_localDefaultBranchCommit : string;
  git_remoteDefaultBranchCommit : string
}.

Definition set_headCommit (val : string) (p : project) : project :=
  mkProject (rootdir p) (wd p) (isRepo p) (gitcfg p) (baseRef p)
    (normalizedRepo p) (git_wrapper p) val
    (git_localDefaultBranchCommit p) (git_remoteDefaultBranchCommit p).

Definition set_remoteDefaultBranchCommit (val : string) (p : project) : project :=
  mkProject (rootdir p) (wd p) (isRepo p) (gitcfg p) (baseRef p)
    (normalizedRepo p) (git_wrapper p) (git_headCommit p)
    (git_localDefaultBranchCommit p) val.

Definition remoteDefaultBranchRef (p : project) : string :=
  let git := gitcfg p in
  hcl.DefaultRemote git +:+ "/" +:+ hcl.DefaultBranch git.

(** [defaultBaseRev] returns the revision used for change comparison based
    on the current git state. Every query drops its error. *)
Definition defaultBaseRev (p : project) : string :=
  let gitcfg := gitcfg p in
  let gw := git_wrapper p in
  let remoteDefaultBranchRef := remoteDefaultBranchRef p in
  let headRev := git.discard "" (git.RevParse gw "HEAD") in
  let remoteDefaultRev := git.discard "" (git.RevParse gw remoteDefaultBranchRef) in
  let isRemoteDefaultRev :=
    negb (String.eqb headRev "") && String.eqb headRev remoteDefaultRev in
  let isRemoteDefaultRevAncestor :=
    git.discard false (git.IsAncestor gw "HEAD" remoteDefaultBranchRef) in
  if negb isRemoteDefaultRev && negb isRemoteDefaultRevAncestor then
    (* Case 1 (pending) *)
    remoteDefaultBranchRef
  else
    let branch := git.discard "" (git.CurrentBranch gw) in
    let isDefaultBranch :=
      negb (String.eqb branch "") && String.eqb branch (hcl.DefaultBranch gitcfg) in
    let isEmptyPendingBranch := isRemoteDefaultRev && negb isDefaultBranch in
    if isEmptyPendingBranch then
      (* Case 2 (pending) *)
      remoteDefaultBranchRef
    else if isRemoteDefaultRev then
      (* Case 3 (deployed) *)
      hcl.DefaultBranchBaseRef gitcfg
    else
      let isRemoteDefaultBranchAncestor :=
        git.discard false (git.IsFirstParentAncestor gw remoteDefaultBranchRef "HEAD") in
      if isRemoteDefaultBranchAncestor then
        (* Case 4 (deployed) *)
        hcl.DefaultBranchBaseRef gitcfg
      else
        let forkPoint :=
          git.discard "" (git.FindForkPoint gw remoteDefaultBranchRef "HEAD") in
        if negb (String.eqb forkPoint "") then
          (* Case 5 (historic) *)
          forkPoint
        else
          (* Fallback to deployed strategy *)
          hcl.DefaultBranchBaseRef gitcfg.

(** ** Methods that can end the process

    [logger.Fatal] exits the process: a method that may call it either
    returns a value together with the project it mutated, or is fatal. *)

Inductive outcome (A : Type) : Type :=
  | Done (a : A) (p : project)
  | Fatal (e : error).
Arguments Done {A} a p.
Arguments Fatal {A} e.

Definition M (A : Type) : Type := project → outcome A.

#[global] Instance M_ret : MRet M := λ A a p, Done a p.
#[global] Instance M_bind : MBind M := λ A B f m p,
  match m p with
  | Done a p' => f a p'
  | Fatal e => Fatal e
  end.

Definition returned {A : Type} (o : outcome A) : option A :=
  match o with
  | Done a _ => Some a
  | Fatal _ => None
  end.

(** A query of [p.git.wrapper]. *)
Definition wrapper {A : Type} (query : git.Git → A) : M A :=
  λ p, Done (query (git_wrapper p)) p.

(** [headCommit] memoizes [RevParse("HEAD")] in the project. *)
Definition headCommit : M string := λ p,
  if negb (String.eqb (git_headCommit p) "") then
    Done (git_headCommit p) p
  else
    match git.RevParse (git_wrapper p) "HEAD" with
    | git.Err err => Fatal err
    | git.Ok val => Done val (set_headCommit val p)
    end.

(** [remoteDefaultCommit] memoizes the commit of the remote default branch. *)
Definition remoteDefaultCommit : M string := λ p,
  if negb (String.eqb (git_remoteDefaultBranchCommit p) "") then
    Done (git_remoteDefaultBranchCommit p) p
  else
    let gitcfg := gitcfg p in
    match git.FetchRemoteRev (git_wrapper p)
            (hcl.DefaultRemote gitcfg) (hcl.DefaultBranch gitcfg) with
    | git.Err err =>
        Fatal (Errorf "fetching remote commit of %s/%s: %v"
                 [ArgString (hcl.DefaultRemote gitcfg);
                  ArgString (hcl.DefaultBranch gitcfg);
                  ArgError err])
    | git.Ok remoteRef =>
        Done (git.CommitID remoteRef)
             (set_remoteDefaultBranchCommit (git.CommitID remoteRef) p)
    end.

(** The first remote named [name]: the [for ... range] loop with its
    [break]. *)
Fixpoint findRemote (name : string) (remotes : list git.Remote) : option git.Remote :=
  match remotes with
  | [] => None
  | remote :: rest =>
      if String.eqb (git.Name remote) name then Some remote
      else findRemote name rest
  end.

(** The loop over [defRemote.Branches] that returns at the first match. *)
Fixpoint hasBranch (name : string) (branches : list string) : bool :=
  match branches with
  | [] => false
  | branch :: rest =>
      if String.eqb branch name then true else hasBranch name rest
  end.

Section PackageConstants.

(** The package-level constants are declared outside the analysed
    sources; their literals are left open. *)
Variable defaultRemote : string.
Variable defaultBranch : string.
Variable defaultBranchBaseRef : string.
Variable ErrCurrentHeadIsOutOfDate : string.
(** [hcl.NewGitConfig()], which presets the other git options. *)
Variable NewGitConfig : hcl.GitConfig.

(** [setDefaults] creates the missing configuration blocks and fills the
    empty git options; the returned error is always nil. *)
Definition setDefaults (cfg : hcl.Config) : hcl.Config * option error :=
  let terramate :=
    match hcl.cfg_Terramate cfg with
    | None => hcl.mkTerramate None
    | Some tm => tm
    end in
  let config :=
    match hcl.tm_Config terramate with
    | None => hcl.mkRootConfig None
    | Some rc => rc
    end in
  let gitOpt :=
    match hcl.rc_Git config with
    | None => NewGitConfig
    | Some g => g
    end in
  let baseRef :=
    if String.eqb (hcl.DefaultBranchBaseRef gitOpt) "" then defaultBranchBaseRef
    else hcl.DefaultBranchBaseRef gitOpt in
  let branch :=
    if String.eqb (hcl.DefaultBranch gitOpt) "" then defaultBranch
    else hcl.DefaultBranch gitOpt in
  let remote :=
    if String.eqb (hcl.DefaultRemote gitOpt) "" then defaultRemote
    else hcl.DefaultRemote gitOpt in
  (hcl.mkConfig (Some (hcl.mkTerramate (Some (hcl.mkRootConfig
     (Some (hcl.mkGitConfig baseRef branch remote)))))),
   None).

Definition checkDefaultRemote (p : project) : option error :=
  match git.Remotes (git_wrapper p) with
  | git.Err err =>
      Some (Errorf "checking if remote %q exists: %v"
              [ArgString defaultRemote; ArgError err])
  | git.Ok remotes =>
      let gitcfg := gitcfg p in
      match findRemote (hcl.DefaultRemote gitcfg) remotes with
      | None =>
          Some (Errorf "repository must have a configured %q remote"
                  [ArgString (hcl.DefaultRemote gitcfg)])
      | Some defRemote =>
          if hasBranch (hcl.DefaultBranch gitcfg) (git.Branches defRemote) then None
          else
            Some (Errorf "remote %q has no default branch %q,branches:%v"
                    [ArgString (hcl.DefaultRemote gitcfg);
                     ArgString (hcl.DefaultBranch gitcfg);
                     ArgStrings (git.Branches defRemote)])
      end
  end.

Definition outOfDateErr : error :=
  ErrorsE ErrCurrentHeadIsOutOfDate
    "Please update the current branch with the latest changes from the default branch.".

Definition checkRemoteDefaultBranchIsReachable : M (option error) :=
  (* the fields of the logger *)
  _ ← headCommit;
  _ ← remoteDefaultCommit;
  head ← headCommit;
  remoteDefault ← remoteDefaultCommit;
  merged ← wrapper (λ gw, git.MergeBase gw head remoteDefault);
  match merged with
  | git.Err _ => mret (Some outOfDateErr)
  | git.Ok mergeBaseCommitID =>
      remoteDefault' ← remoteDefaultCommit;
      if negb (String.eqb mergeBaseCommitID remoteDefault')
      then mret (Some outOfDateErr)
      else mret None
  end.

End PackageConstants.

(** ** Cloud status records

    The types of the records the end-to-end tests put on the status
    service; only their use in the tests is part of the analysed sources. *)

Module stack.
Inductive Status : Type := OK | Failed | Drifted | Unknown.

Definition Status_eqb (a b : Status) : bool :=
  match a, b with
  | OK, OK | Failed, Failed | Drifted, Drifted | Unknown, Unknown => true
  | _, _ => false
  end.
End stack.

Module deployment.
Inductive Status : Type := OK | Failed | Unknown.
End deployment.

Module drift.
Inductive Status : Type := OK | Drifted | Unknown.
End drift.

Module cloud.

Record Stack : Type := mkStack {
  MetaID : string;
  Repository : string
}.

Record StackResponse : Type := mkStackResponse {
  ID : Z;
  Stack_ : Stack;
  Status : stack.Status;
  DeploymentStatus : deployment.Status;
  DriftStatus : drift.Status
}.

End cloud.

(** ** The [list] command

    The command's implementation is not part of the analysed sources: its
    end-to-end tests are. The definitions below follow the specification
    (sections 4.3 to 4.5 and 6). *)

(** Modelled from the spec: a local stack, "identified by a
    repository-relative path and an optional metaID", with its tags. *)
Record Stack : Type := mkStack {
  path : string;
  metaID : string;
  tags : list string
}.

(** Modelled from the spec: the filter criteria, an include-tag set, an
    exclude-tag set and the value of [--experimental-status], if given. *)
Record Criteria : Type := mkCriteria {
  includeTags : list string;
  excludeTags : list string;
  statusFilter : option string
}.

(** Modelled from the spec: what the cloud status source answers, the
    records of the organization or a network failure. *)
Inductive StatusSource : Type :=
  | Records (stacks : list cloud.StackResponse)
  | NetworkError (msg : string).

(** Modelled from the spec: the inputs of one invocation, the local stack
    inventory, the normalized repository, whether the remote is a
    filesystem-only one, and the cloud status source. *)
Record Env : Type := mkEnv {
  inventory : list Stack;
  repository : string;
  filesystemRemote : bool;
  statusSource : StatusSource
}.

(** Modelled from the spec: the result of a run, as the tests observe it
    ([runExpected]). *)
Record RunResult : Type := mkRunResult {
  Status : Z;
  Stdout : string;
  Stderr : string
}.

(** What a command does to the outside world. *)
Inductive Event : Type :=
  | FetchStatus.

(** A command either aborts with a message or yields a value, and records
    the events it caused. *)
Definition Cmd (A : Type) : Type := list Event → (string + A) * list Event.

#[global] Instance Cmd_ret : MRet Cmd := λ A a tr, (inr a, tr).
#[global] Instance Cmd_bind : MBind Cmd := λ A B f m tr,
  match m tr with
  | (inr a, tr') => f a tr'
  | (inl msg, tr') => (inl msg, tr')
  end.

Definition fatal {A : Type} (msg : string) : Cmd A := λ tr, (inl msg, tr).

(** Modelled from the spec: the cloud status fetch, "a failed cloud fetch
    is surfaced immediately as a fatal command error". *)
Definition fetchStatus (env : Env) : Cmd (list cloud.StackResponse) := λ tr,
  match statusSource env with
  | Records stacks => (inr stacks, tr ++ [FetchStatus])
  | NetworkError msg => (inl msg, tr ++ [FetchStatus])
  end.

(** Modelled from the spec (4.4): a stack is selected iff "its tags are a
    superset of every required value, and none of its tags appears in the
    excluded set". *)
Definition tagFilter (crit : Criteria) (s : Stack) : bool :=
  forallb (λ t, bool_decide (t ∈ tags s)) (includeTags crit)
  && forallb (λ t, negb (bool_decide (t ∈ excludeTags crit))) (tags s).

(** Modelled from the spec (4.3): "build a lookup from metaID to
    RemoteStackStatus, including only records whose repository field
    equals the current normalized repository string". *)
Definition statusLookup (repo : string) (records : list cloud.StackResponse)
  : gmap string cloud.StackResponse :=
  foldl (λ m r,
           if String.eqb (cloud.Repository (cloud.Stack_ r)) repo
           then <[cloud.MetaID (cloud.Stack_ r) := r]> m
           else m)
        ∅ records.

(** Modelled from the spec (4.3): the classification of one local stack
    against the lookup. *)
Definition isUnhealthy (lookup : gmap string cloud.StackResponse) (s : Stack) : bool :=
  if String.eqb (metaID s) "" then false
  else
    match lookup !! metaID s with
    | Some r => negb (stack.Status_eqb (cloud.Status r) stack.OK)
    | None => false
    end.

(** Modelled from the spec (4.3): "the subset of input stacks classified
    unhealthy, preserving relative order". *)
Definition cloudHealthFilter (repo : string) (records : list cloud.StackResponse)
    (stacks : list Stack) : list Stack :=
  let lookup := statusLookup repo records in
  filter (λ s, isUnhealthy lookup s) stacks.

(** Modelled from the spec (4.3): the preconditions of the status filter,
    "checked eagerly and each producing a distinct fatal error before any
    data is fetched". *)
Definition checkStatusFilter (env : Env) (value : string) : Cmd unit :=
  if negb (String.eqb value "unhealthy") then
    fatal "only unhealthy filter allowed"
  else if filesystemRemote env then
    fatal "unhealthy status filter does not work with filesystem based remotes"
  else mret ().

Definition path_le (a b : Stack) : Prop := String.le (path a) (path b).

#[global] Instance path_le_dec : RelDecision path_le.
Proof. intros a b. unfold path_le. apply _. Defined.

(** Modelled from the spec (4.5): "sort the surviving stacks by path,
    lexicographically". *)
Definition sortStacks (stacks : list Stack) : list Stack :=
  merge_sort path_le stacks.

(** Modelled from the spec (4.5): validation, tag filter, health filter
    when a status flag is present, ordering. *)
Definition listStacks (env : Env) (crit : Criteria) : Cmd (list Stack) :=
  match statusFilter crit with
  | None => mret (sortStacks (filter (λ s, tagFilter crit s) (inventory env)))
  | Some value =>
      _ ← checkStatusFilter env value;
      let tagged := filter (λ s, tagFilter crit s) (inventory env) in
      records ← fetchStatus env;
      mret (sortStacks (cloudHealthFilter (repository env) records tagged))
  end.

(** [nljoin] of the tests, for a non-empty result; no output otherwise. *)
Fixpoint printStacks (paths : list string) : string :=
  match paths with
  | [] => ""
  | p :: rest => p +:+ String "010"%char (printStacks rest)
  end.

(** Modelled from the spec (6): "exit code 0 on success with newline-joined,
    sorted stack paths on standard output", "exit code 1 with a descriptive
    message on standard error" otherwise. *)
Definition run (env : Env) (crit : Criteria) : RunResult * list Event :=
  match listStacks env crit [] with
  | (inr stacks, tr) => (mkRunResult 0 (printStacks (path <$> stacks)) "", tr)
  | (inl msg, tr) => (mkRunResult 1 "" msg, tr)
  end.

(** ** The decision procedure of the base revision, as specified

    The six cases of the specification over the facts observed from git;
    the first case whose condition holds gives the revision. *)

(** A commit or branch name that a query resolved: a failed query and an
    empty answer resolve nothing. *)
Definition resolved (r : git.result string) : option string :=
  match r with
  | git.Ok v => if String.eqb v "" then None else Some v
  | git.Err _ => None
  end.

(** A yes/no probe holds when it succeeded with [true]. *)
Definition holds (r : git.result bool) : bool :=
  match r with
  | git.Ok b => b
  | git.Err _ => false
  end.

Record GitFacts : Type := mkGitFacts {
  headRevision : option string;
  remoteDefaultRevision : option string;
  headIsAncestorOfRemoteDefault : bool;
  currentBranch : option string;
  remoteDefaultIsFirstParentAncestorOfHead : bool;
  forkPoint : option string
}.

Definition observe (p : project) : GitFacts :=
  let gw := git_wrapper p in
  let ref := remoteDefaultBranchRef p in
  mkGitFacts
    (resolved (git.RevParse gw "HEAD"))
    (resolved (git.RevParse gw ref))
    (holds (git.IsAncestor gw "HEAD" ref))
    (resolved (git.CurrentBranch gw))
    (holds (git.IsFirstParentAncestor gw ref "HEAD"))
    (resolved (git.FindForkPoint gw ref "HEAD")).

(** HEAD equals the remote default commit: both resolved, to one commit. *)
Definition headIsRemoteDefault (f : GitFacts) : bool :=
  match headRevision f, remoteDefaultRevision f with
  | Some h, Some c => String.eqb h c
  | _, _ => false
  end.

(** The current branch is the configured default branch. *)
Definition onDefaultBranch (cfg : hcl.GitConfig) (f : GitFacts) : bool :=
  match currentBranch f with
  | Some b => String.eqb b (hcl.DefaultBranch cfg)
  | None => false
  end.



(** ** Failed queries as negative answers *)

Definition negative {A : Type} (zero : A) (r : git.result A) : git.result A :=
  match r with
  | git.Ok v => git.Ok v
  | git.Err _ => git.Ok zero
  end.

(** The wrapper in which each failed query of [defaultBaseRev] answers
    false, the empty string or no fork point instead. *)
Definition negativeAnswers (gw : git.Git) : git.Git :=
  git.mkGit
    (λ rev, negative "" (git.RevParse gw rev))
    (negative "" (git.CurrentBranch gw))
    (λ a b, negative false (git.IsAncestor gw a b))
    (λ a b, negative false (git.IsFirstParentAncestor gw a b))
    (λ a b, negative "" (git.FindForkPoint gw a b))
    (git.MergeBase gw)
    (git.Remotes gw)
    (git.FetchRemoteRev gw)
    (git.URL gw).

(** The wrapper of a repository in which every query fails. *)
Definition failing (e : error) : git.Git :=
  git.mkGit (λ _, git.Err e) (git.Err e) (λ _ _, git.Err e) (λ _ _, git.Err e)
    (λ _ _, git.Err e) (λ _ _, git.Err e) (git.Err e) (λ _ _, git.Err e)
    (λ _, git.Err e).

Definition set_wrapper (gw : git.Git) (p : project) : project :=
  mkProject (rootdir p) (wd p) (isRepo p) (gitcfg p) (baseRef p)
    (normalizedRepo p) gw (git_headCommit p)
    (git_localDefaultBranchCommit p) (git_remoteDefaultBranchCommit p).

(** The queries [defaultBaseRev] makes, and whether one of them failed. *)
Definition someProbeFailed (p : project) : bool :=
  let gw := git_wrapper p in
  let ref := remoteDefaultBranchRef p in
  git.failed (git.RevParse gw "HEAD")
  || git.failed (git.RevParse gw ref)
  || git.failed (git.IsAncestor gw "HEAD" ref)
  || git.failed (git.CurrentBranch gw)
  || git.failed (git.IsFirstParentAncestor gw ref "HEAD")
  || git.failed (git.FindForkPoint gw ref "HEAD").

(** ** Remotes *)

(** [r] is the first remote of the listing named [name]. *)
Definition firstNamed (name : string) (remotes : list git.Remote) (r : git.Remote) : Prop :=
  ∃ before after,
    remotes = before ++ r :: after
    ∧ git.Name r = name
    ∧ Forall (λ x, git.Name x ≠ name) before.

(** ** Records of the current repository *)

Definition sameRepository (repo : string) (r : cloud.StackResponse) : Prop :=
  cloud.Repository (cloud.Stack_ r) = repo.

#[global] Instance sameRepository_dec repo r : Decision (sameRepository repo r).
Proof. unfold sameRepository. apply _. Defined.

Definition recordMetaID (r : cloud.StackResponse) : string :=
  cloud.MetaID (cloud.Stack_ r).

Definition set_statusSource (src : StatusSource) (env : Env) : Env :=
  mkEnv (inventory env) (repository env) (filesystemRemote env) src.


(** ** Concrete repositories and test fixtures *)

Definition exampleConfig : hcl.GitConfig := hcl.mkGitConfig "HEAD^" "main" "origin".

Definition notARepository : error := CmdError "fatal: not a git repository".

(** A wrapper over a fixed history: [HEAD] and [origin/main] resolve to the
    given answers, every other probe answers as given. *)
Definition exampleGit (head remote : git.result string)
    (ancestor : git.result bool) (branch : git.result string)
    (firstParent : git.result bool) (fork : git.result string)
    (mergeBase : git.result string) (remotes : git.result (list git.Remote))
  : git.Git :=
  git.mkGit
    (λ rev, if String.eqb rev "HEAD" then head
            else if String.eqb rev "origin/main" then remote
            else git.Err (CmdError "unknown revision"))
    branch
    (λ _ _, ancestor)
    (λ _ _, firstParent)
    (λ _ _, fork)
    (λ _ _, mergeBase)
    remotes
    (λ _ _, match remote with
            | git.Ok c => git.Ok (git.mkRef c)
            | git.Err e => git.Err e
            end)
    (λ _, git.Ok "git@github.com:terramate-io/terramate.git").

Definition exampleProject (gw : git.Git) : project :=
  mkProject "/repo" "/repo" true exampleConfig "" "" gw "" "" "".

Definition originRemote : git.Remote := git.mkRemote "origin" ["main"; "dev"].

(** A feature branch with one commit on top of [origin/main]. *)
Definition featureBranch : project :=
  exampleProject
    (exampleGit (git.Ok "f00d") (git.Ok "c0de") (git.Ok false) (git.Ok "feature")
       (git.Ok false) (git.Ok "c0de") (git.Ok "c0de") (git.Ok [originRemote])).

(** A branch created from [origin/main] with no commit yet. *)
Definition emptyBranch : project :=
  exampleProject
    (exampleGit (git.Ok "c0de") (git.Ok "c0de") (git.Ok true) (git.Ok "feature")
       (git.Ok true) (git.Ok "c0de") (git.Ok "c0de") (git.Ok [originRemote])).

(** The default branch at the commit of [origin/main]. *)
Definition latestMain : project :=
  exampleProject
    (exampleGit (git.Ok "c0de") (git.Ok "c0de") (git.Ok true) (git.Ok "main")
       (git.Ok true) (git.Ok "c0de") (git.Ok "c0de") (git.Ok [originRemote])).

(** An older commit of the default branch, checked out detached. *)
Definition historicMain : project :=
  exampleProject
    (exampleGit (git.Ok "0ld1") (git.Ok "c0de") (git.Ok true) (git.Ok "")
       (git.Ok true) (git.Ok "") (git.Ok "0ld1") (git.Ok [originRemote])).

(** A commit of a branch that was merged into the default branch. *)
Definition mergedBranch : project :=
  exampleProject
    (exampleGit (git.Ok "b0b0") (git.Ok "c0de") (git.Ok true) (git.Ok "")
       (git.Ok false) (git.Ok "0ld1") (git.Ok "b0b0") (git.Ok [originRemote])).

(** The same commit when no fork point is found. *)
Definition noForkPoint : project :=
  exampleProject
    (exampleGit (git.Ok "b0b0") (git.Ok "c0de") (git.Ok true) (git.Ok "")
       (git.Ok false) (git.Ok "") (git.Ok "b0b0") (git.Ok [originRemote])).

(** The feature branch when the ancestry probe fails. *)
Definition ancestryProbeFails : project :=
  exampleProject
    (exampleGit (git.Ok "f00d") (git.Ok "c0de") (git.Err notARepository)
       (git.Ok "feature") (git.Ok false) (git.Ok "c0de") (git.Ok "c0de")
       (git.Ok [originRemote])).

(** A branch that is behind [origin/main]. *)
Definition behindMain : project :=
  exampleProject
    (exampleGit (git.Ok "0ld1") (git.Ok "c0de") (git.Ok true) (git.Ok "feature")
       (git.Ok false) (git.Ok "0ld1") (git.Ok "0ld1") (git.Ok [originRemote])).

(** A repository whose only remote lacks the default branch. *)
Definition noMainBranch : project :=
  exampleProject
    (exampleGit (git.Ok "f00d") (git.Ok "c0de") (git.Ok false) (git.Ok "feature")
       (git.Ok false) (git.Ok "c0de") (git.Ok "c0de")
       (git.Ok [git.mkRemote "origin" ["dev"; "release"]])).

(** The fixtures of [TestCloudListUnhealthy]. *)
Definition s1 : Stack := mkStack "s1" "s1" [].
Definition s2 : Stack := mkStack "s2" "s2" [].
Definition stackWithoutID : Stack := mkStack "stack-without-id" "" [].

Definition terramateRepo : string := "github.com/terramate-io/terramate".

Definition s1Failed : cloud.StackResponse :=
  cloud.mkStackResponse 1 (cloud.mkStack "s1" terramateRepo)
    stack.Failed deployment.Failed drift.OK.

Definition s1FailedElsewhere : cloud.StackResponse :=
  cloud.mkStackResponse 1 (cloud.mkStack "s1" "gitlab.com/unknown-io/other")
    stack.Failed deployment.Failed drift.OK.

Definition s1OK : cloud.StackResponse :=
  cloud.mkStackResponse 1 (cloud.mkStack "s1" terramateRepo)
    stack.OK deployment.OK drift.OK.

Definition s2OK : cloud.StackResponse :=
  cloud.mkStackResponse 2 (cloud.mkStack "s2" terramateRepo)
    stack.OK deployment.OK drift.OK.

Definition s2Drifted : cloud.StackResponse :=
  cloud.mkStackResponse 2 (cloud.mkStack "s2" terramateRepo)
    stack.Drifted deployment.OK drift.Drifted.

Definition testEnv (layout : list Stack) (stacks : list cloud.StackResponse) : Env :=
  mkEnv layout terramateRepo false (Records stacks).

Definition localEnv (layout : list Stack) : Env :=
  mkEnv layout "local" true (Records []).

Definition noFlags : Criteria := mkCriteria [] [] None.
Definition statusFlag (value : string) : Criteria := mkCriteria [] [] (Some value).

(** ** The normalized repository *)

Definition set_normalizedRepo (val : string) (p : project) : project :=
  mkProject (rootdir p) (wd p) (isRepo p) (gitcfg p) (baseRef p)
    val (git_wrapper p) (git_headCommit p)
    (git_localDefaultBranchCommit p) (git_remoteDefaultBranchCommit p).

(** [prettyRepo] memoizes the normalized URL of the default remote; a
    failing [URL] query is logged as a warning and leaves the project as it
    is. [NormalizeGitURI] is [cloud.NormalizeGitURI], declared outside the
    analysed sources. *)
Definition prettyRepo (NormalizeGitURI : string → string) (p : project)
  : string * project :=
  if negb (String.eqb (normalizedRepo p) "") then (normalizedRepo p, p)
  else if isRepo p then
    match git.URL (git_wrapper p) (hcl.DefaultRemote (gitcfg p)) with
    | git.Ok repoURL =>
        let p' := set_normalizedRepo (NormalizeGitURI repoURL) p in
        (normalizedRepo p', p')
    | git.Err _ => (normalizedRepo p, p)
    end
  else (normalizedRepo p, p).

(** ** Test helpers *)

(** [strings.Join]. *)
Fixpoint Join (elems : list string) (sep : string) : string :=
  match elems with
  | [] => ""
  | [e] => e
  | e :: rest => e +:+ sep +:+ Join rest sep
  end.

(** [nljoin] of the end-to-end tests. *)
Definition nljoin (stacks : list string) : string :=
  Join stacks (String "010"%char "") +:+ String "010"%char "".

(** The [echo] subcommand of the test helper: the loop over [os.Args[2:]]
    that prints a space after every argument but the last, then the final
    newline. [i] is the index of the head of [rest] in [args]. *)
Fixpoint echoLoop (n : nat) (i : nat) (rest : list string) : string :=
  match rest with
  | [] => ""
  | arg :: rest' =>
      arg +:+ (if Nat.ltb (i + 1) n then " " else "") +:+ echoLoop n (S i) rest'
  end.

Definition echo (args : list string) : string :=
  echoLoop (length args) 0 args +:+ String "010"%char "".

(** ** Script blocks

    [parseScriptBlock], [validateScriptJobBlock] and the three validators
    of package [hcl]. The syntax tree ([ast]), the error list ([errors]),
    the values of expressions ([cty]) and their evaluation are declared
    outside the analysed sources; they are kept to what these functions
    use. *)

Module cty.

(** The values an expression evaluates to: strings, numbers, booleans,
    tuples, objects, null, and the unknown value of a failed evaluation. *)
#[local] Unset Elimination Schemes.
Inductive Value : Type :=
  | StringVal (s : string)
  | NumberVal (n : Z)
  | BoolVal (b : bool)
  | TupleVal (elems : list Value)
  | ObjectVal (attrs : list (string * Value))
  | NullVal
  | DynamicVal.
#[local] Set Elimination Schemes.

(** [val.AsString()] panics unless the value is a known, non-null string:
    [None] is the panic. *)
Definition AsString (val : Value) : option string :=
  match val with
  | StringVal s => Some s
  | _ => None
  end.

(** [val.Type().IsTupleType()]. *)
Definition IsTupleType (val : Value) : bool :=
  match val with
  | TupleVal _ => true
  | _ => false
  end.

(** [val.AsValueSlice()] panics unless the value can be iterated: [None]
    is the panic. *)
Definition AsValueSlice (val : Value) : option (list Value) :=
  match val with
  | TupleVal elems => Some elems
  | ObjectVal attrs => Some (attrs.*2)
  | _ => None
  end.

End cty.

Module ast.

(** An expression, kept as what [Expr.Value(nil)] returns: the value and
    whether the diagnostics have errors. *)
Record Expression : Type := mkExpression {
  Value : cty.Value;
  HasErrors : bool
}.

Record Pos : Type := mkPos {
  Line : nat;
  Column : nat;
  Byte : nat
}.

Record Range : Type := mkRange {
  Filename : string;
  Start : Pos;
  End_ : Pos
}.

(** An attribute: its name, where the name stands, and its expression. *)
Record Attribute : Type := mkAttribute {
  Name : string;
  NameRange : Range;
  Expr : Expression
}.

(** A block. [Attributes] lists the attributes in the order in which
    [range block.Attributes] visits them. *)
#[local] Unset Elimination Schemes.
Inductive Block : Type :=
  mkBlock (Type_ : string) (TypeRange : Range) (Labels : list string)
    (OpenBraceRange : Range) (Attributes : list Attribute)
    (Blocks : list Block).
#[local] Set Elimination Schemes.

Definition Type_ (b : Block) : string :=
  match b with mkBlock t _ _ _ _ _ => t end.
Definition TypeRange (b : Block) : Range :=
  match b with mkBlock _ r _ _ _ _ => r end.
Definition Labels (b : Block) : list string :=
  match b with mkBlock _ _ l _ _ _ => l end.
Definition OpenBraceRange (b : Block) : Range :=
  match b with mkBlock _ _ _ r _ _ => r end.
Definition Attributes (b : Block) : list Attribute :=
  match b with mkBlock _ _ _ _ a _ => a end.
Definition Blocks (b : Block) : list Block :=
  match b with mkBlock _ _ _ _ _ bs => bs end.

End ast.

Module errors.

(** [errors.E(kind, range)] and [errors.E(kind, range, description)]. *)
Record Error : Type := E {
  Kind : string;
  FileRange : ast.Range;
  Description : option string
}.

(** [errors.L()]: the errors appended so far. *)
Definition List : Type := list Error.

(** [errs.Append(err)] for a single error. *)
Definition Append (errs : List) (err : Error) : List := errs ++ [err].

(** [errs.Append(err)] for the error of a nested validation, nil or a
    list, whose errors are appended one by one. *)
Definition AppendAll (errs : List) (err : option List) : List :=
  match err with
  | None => errs
  | Some nested => errs ++ nested
  end.

(** [errs.AsError()]: nil when nothing was appended. *)
Definition AsError (errs : List) : option List :=
  match errs with
  | [] => None
  | _ => Some errs
  end.

End errors.

Definition ErrScriptNoAttrs : string :=
  "terramate schema error: (script): no attributes defined".
Definition ErrScriptNoBlocks : string :=
  "terramate schema error: (script): no blocks defined".
Definition ErrScriptEmptyLabel : string :=
  "terramate schema error: (script): must provide labels".
Definition ErrScriptTwoLabels : string :=
  "terramate schema error: (script): must provide exactly two labels".
Definition ErrScriptInvalidDesc : string :=
  "terramate schema error: (script): invalid description".
Definition ErrScriptUnknownAttr : string :=
  "terramate schema error: (script): unknown attribute".
Definition ErrScriptUnknownBlock : string :=
  "terramate schema error: (script): unknown block".
Definition ErrScriptInvalidJob : string :=
  "terramate schema error: (script): invalid job".
Definition ErrScriptInvalidCmd : string :=
  "terramate schema error: (script): invalid command".
Definition ErrScriptInvalidCmds : string :=
  "terramate schema error: (script): invalid commands".
Definition ErrScriptCmdConflict : string :=
  "terramate schema error: (script): command and commands both set".

(** [Command] is an attribute; [Commands] a list of commands. *)
Definition Command : Type := ast.Attribute.
Definition Commands : Type := list (list string).

(** A job: [Command] is nil and [Commands] is the nil slice until set. *)
Record ScriptJob : Type := mkScriptJob {
  job_Command : option Command;
  job_Commands : option Commands
}.

(** A script: [Description] is the zero attribute until set; an entry of
    [Jobs] is nil when its block was not valid. *)
Record Script : Type := mkScript {
  script_Labels : list string;
  script_Description : option ast.Attribute;
  script_Jobs : list (option ScriptJob)
}.


(** The state of the loop of [validateScriptJobBlock]. *)
Record jobLoop : Type := mkJobLoop {
  jl_errs : errors.List;
  jl_foundCmd : bool;
  jl_foundCmds : bool;
  jl_job : ScriptJob
}.

(** A call either returns or panics. *)
Inductive go (A : Type) : Type :=
  | Returns (a : A)
  | Panics.
Arguments Returns {A} a.
Arguments Panics {A}.

#[global] Instance go_ret : MRet go := λ A a, Returns a.
#[global] Instance go_bind : MBind go := λ A B f m,
  match m with
  | Returns a => f a
  | Panics => Panics
  end.

(** A [for ... range] loop whose body may panic. *)
Fixpoint rangeLoop {A B : Type} (body : A → B → go A) (st : A) (l : list B) : go A :=
  match l with
  | [] => Returns st
  | x :: rest =>
      match body st x with
      | Returns st' => rangeLoop body st' rest
      | Panics => Panics
      end
  end.

Section ScriptBlocks.

(** [ValueAsStringList] of package [hcl], declared outside the analysed
    sources: the strings of a value, or an error ([None]). *)
Variable ValueAsStringList : cty.Value → option (list string).

(** The validators return the attribute, or the parsed commands, or an
    error whose content their callers drop: [None]. *)
Definition validateDescription (attr : ast.Attribute) : go (option ast.Attribute) :=
  let val := ast.Value (ast.Expr attr) in
  if ast.HasErrors (ast.Expr attr) then Returns None
  else
    match cty.AsString val with
    | None => Panics
    | Some s => if String.eqb s "" then Returns None else Returns (Some attr)
    end.

Definition validateCommand (cmdAttr : ast.Attribute) : go (option Command) :=
  let val := ast.Value (ast.Expr cmdAttr) in
  let diagsErr := ast.HasErrors (ast.Expr cmdAttr) in
  let listErr := bool_decide (ValueAsStringList val = None) in
  if diagsErr || listErr then Returns None else Returns (Some cmdAttr).

Definition validateCommands (cmdsAttr : ast.Attribute) : go (option Commands) :=
  let val := ast.Value (ast.Expr cmdsAttr) in
  let diagsErr := ast.HasErrors (ast.Expr cmdsAttr) in
  let typeErr := negb (cty.IsTupleType val) in
  match cty.AsValueSlice val with
  | None => Panics
  | Some valSlice =>
      let parsed := ValueAsStringList <$> valSlice in
      let elemErr := existsb (λ r, bool_decide (r = None)) parsed in
      let cmds := default [] <$> parsed in
      if diagsErr || typeErr || elemErr then Returns None else Returns (Some cmds)
  end.

Definition jobAttribute (st : jobLoop) (attr : ast.Attribute) : go jobLoop :=
  if String.eqb (ast.Name attr) "command" then
    cmdAttr ← validateCommand attr;
    match cmdAttr with
    | None =>
        mret (mkJobLoop
          (errors.Append (jl_errs st)
             (errors.E ErrScriptInvalidCmd (ast.NameRange attr) (Some (ast.Name attr))))
          (jl_foundCmd st) (jl_foundCmds st) (jl_job st))
    | Some cmdAttr =>
        mret (mkJobLoop (jl_errs st) true (jl_foundCmds st)
          (mkScriptJob (Some cmdAttr) (job_Commands (jl_job st))))
    end
  else if String.eqb (ast.Name attr) "commands" then
    parsedCmds ← validateCommands attr;
    match parsedCmds with
    | None =>
        mret (mkJobLoop
          (errors.Append (jl_errs st)
             (errors.E ErrScriptInvalidCmds (ast.NameRange attr) (Some (ast.Name attr))))
          (jl_foundCmd st) (jl_foundCmds st) (jl_job st))
    | Some parsedCmds =>
        mret (mkJobLoop (jl_errs st) (jl_foundCmd st) true
          (mkScriptJob (job_Command (jl_job st)) (Some parsedCmds)))
    end
  else
    mret (mkJobLoop
      (errors.Append (jl_errs st)
         (errors.E ErrScriptUnknownAttr (ast.NameRange attr) (Some (ast.Name attr))))
      (jl_foundCmd st) (jl_foundCmds st) (jl_job st)).

Definition validateScriptJobBlock (block : ast.Block)
  : go (option ScriptJob * option errors.List) :=
  st ← rangeLoop jobAttribute (mkJobLoop [] false false (mkScriptJob None None))
         (ast.Attributes block);
  (* job.command and job.commands are mutually exclusive *)
  let errs :=
    if jl_foundCmd st && jl_foundCmds st
    then errors.Append (jl_errs st) (errors.E ErrScriptCmdConflict (ast.TypeRange block) None)
    else jl_errs st in
  match errors.AsError errs with
  | Some err => mret (None, Some err)
  | None => mret (Some (jl_job st), None)
  end.

Definition scriptAttribute (st : errors.List * Script) (attr : ast.Attribute)
  : go (errors.List * Script) :=
  let (errs, parsedScript) := st in
  if String.eqb (ast.Name attr) "description" then
    desc ← validateDescription attr;
    match desc with
    | None =>
        mret (errors.Append errs (errors.E ErrScriptInvalidDesc (ast.NameRange attr) None),
              parsedScript)
    | Some desc =>
        mret (errs,
              mkScript (script_Labels parsedScript) (Some desc) (script_Jobs parsedScript))
    end
  else
    mret (errors.Append errs (errors.E ErrScriptUnknownAttr (ast.NameRange attr) None),
          parsedScript).

Definition scriptBlock (st : errors.List * Script) (nestedBlock : ast.Block)
  : go (errors.List * Script) :=
  let (errs, parsedScript) := st in
  if String.eqb (ast.Type_ nestedBlock) "job" then
    '(parsedJobBlock, err) ← validateScriptJobBlock nestedBlock;
    mret (errors.AppendAll errs err,
          mkScript (script_Labels parsedScript) (script_Description parsedScript)
            (script_Jobs parsedScript ++ [parsedJobBlock]))
  else
    mret (errors.Append errs
            (errors.E ErrScriptUnknownBlock (ast.TypeRange nestedBlock)
               (Some (ast.Type_ nestedBlock))),
          parsedScript).

Definition parseScriptBlock (block : ast.Block)
  : go (option Script * option errors.List) :=
  let errs : errors.List := [] in
  let errs :=
    if negb (Nat.eqb (length (ast.Labels block)) 2) then
      errors.Append errs (errors.E ErrScriptTwoLabels (ast.OpenBraceRange block) None)
    else if String.eqb (nth 0 (ast.Labels block) "") "" then
      errors.Append errs (errors.E ErrScriptEmptyLabel (ast.OpenBraceRange block) None)
    else errs in
  let parsedScript := mkScript (ast.Labels block) None [] in
  let errs :=
    if Nat.eqb (length (ast.Attributes block)) 0 then
      errors.Append errs (errors.E ErrScriptNoAttrs (ast.OpenBraceRange block) None)
    else errs in
  '(errs, parsedScript) ←
    rangeLoop scriptAttribute (errs, parsedScript) (ast.Attributes block);
  let errs :=
    if Nat.ltb (length (ast.Blocks block)) 1 then
      errors.Append errs (errors.E ErrScriptNoBlocks (ast.TypeRange block) None)
    else errs in
  '(errs, parsedScript) ←
    rangeLoop scriptBlock (errs, parsedScript) (ast.Blocks block);
  match errors.AsError errs with
  | Some err => mret (None, Some err)
  | None => mret (Some parsedScript, None)
  end.

(** Whether a validator returned a value, and which. *)
Definition returnsDescription (attr : ast.Attribute) : bool :=
  match validateDescription attr with
  | Returns (Some _) => true
  | _ => false
  end.

Definition returnsCommand (attr : ast.Attribute) : bool :=
  match validateCommand attr with
  | Returns (Some _) => true
  | _ => false
  end.

Definition returnedCommands (attr : ast.Attribute) : option Commands :=
  match validateCommands attr with
  | Returns parsedCmds => parsedCmds
  | Panics => None
  end.

(** The attributes and blocks on which a validator panics: a [commands]
    whose value cannot be iterated, a [description] that evaluates without
    errors to something that is not a string. *)
Definition jobAttributePanics (attr : ast.Attribute) : bool :=
  negb (String.eqb (ast.Name attr) "command")
  && String.eqb (ast.Name attr) "commands"
  && bool_decide (cty.AsValueSlice (ast.Value (ast.Expr attr)) = None).

Definition jobPanics (block : ast.Block) : bool :=
  existsb jobAttributePanics (ast.Attributes block).

Definition scriptAttributePanics (attr : ast.Attribute) : bool :=
  String.eqb (ast.Name attr) "description"
  && negb (ast.HasErrors (ast.Expr attr))
  && bool_decide (cty.AsString (ast.Value (ast.Expr attr)) = None).

Definition scriptPanics (block : ast.Block) : bool :=
  existsb scriptAttributePanics (ast.Attributes block)
  || existsb (λ nb, String.eqb (ast.Type_ nb) "job" && jobPanics nb) (ast.Blocks block).

End ScriptBlocks.

(** *** What the functions return when no validator panics

    The same loops, over validators that are given by what they return.
    They serve the proofs: [validateScriptJobBlock_eq] and
    [parseScriptBlock_eq] show that the functions above panic on the
    blocks of [jobPanics] and [scriptPanics] and return these results on
    all others. *)
Section ScriptResults.

(** Whether the validator of a description and of a command returns the
    attribute, and the commands the third validator returns. *)
Variable descriptionOK : ast.Attribute → bool.
Variable commandOK : ast.Attribute → bool.
Variable commandsOf : ast.Attribute → option Commands.

Definition descriptionResult (attr : ast.Attribute) : option ast.Attribute :=
  if descriptionOK attr then Some attr else None.

Definition commandResult (cmdAttr : ast.Attribute) : option Command :=
  if commandOK cmdAttr then Some cmdAttr else None.

Definition commandsResult (cmdsAttr : ast.Attribute) : option Commands :=
  commandsOf cmdsAttr.

Definition jobStep (st : jobLoop) (attr : ast.Attribute) : jobLoop :=
  if String.eqb (ast.Name attr) "command" then
    match commandResult attr with
    | None =>
        mkJobLoop
          (errors.Append (jl_errs st)
             (errors.E ErrScriptInvalidCmd (ast.NameRange attr) (Some (ast.Name attr))))
          (jl_foundCmd st) (jl_foundCmds st) (jl_job st)
    | Some cmdAttr =>
        mkJobLoop (jl_errs st) true (jl_foundCmds st)
          (mkScriptJob (Some cmdAttr) (job_Commands (jl_job st)))
    end
  else if String.eqb (ast.Name attr) "commands" then
    match commandsResult attr with
    | None =>
        mkJobLoop
          (errors.Append (jl_errs st)
             (errors.E ErrScriptInvalidCmds (ast.NameRange attr) (Some (ast.Name attr))))
          (jl_foundCmd st) (jl_foundCmds st) (jl_job st)
    | Some parsedCmds =>
        mkJobLoop (jl_errs st) (jl_foundCmd st) true
          (mkScriptJob (job_Command (jl_job st)) (Some parsedCmds))
    end
  else
    mkJobLoop
      (errors.Append (jl_errs st)
         (errors.E ErrScriptUnknownAttr (ast.NameRange attr) (Some (ast.Name attr))))
      (jl_foundCmd st) (jl_foundCmds st) (jl_job st).

Definition jobResult (block : ast.Block)
  : option ScriptJob * option errors.List :=
  let st :=
    foldl jobStep (mkJobLoop [] false false (mkScriptJob None None))
      (ast.Attributes block) in
  (* job.command and job.commands are mutually exclusive *)
  let errs :=
    if jl_foundCmd st && jl_foundCmds st
    then errors.Append (jl_errs st) (errors.E ErrScriptCmdConflict (ast.TypeRange block) None)
    else jl_errs st in
  match errors.AsError errs with
  | Some err => (None, Some err)
  | None => (Some (jl_job st), None)
  end.

Definition scriptAttributeStep (st : errors.List * Script) (attr : ast.Attribute)
  : errors.List * Script :=
  let (errs, parsedScript) := st in
  if String.eqb (ast.Name attr) "description" then
    match descriptionResult attr with
    | None =>
        (errors.Append errs (errors.E ErrScriptInvalidDesc (ast.NameRange attr) None),
         parsedScript)
    | Some desc =>
        (errs,
         mkScript (script_Labels parsedScript) (Some desc) (script_Jobs parsedScript))
    end
  else
    (errors.Append errs (errors.E ErrScriptUnknownAttr (ast.NameRange attr) None),
     parsedScript).

Definition scriptBlockStep (st : errors.List * Script) (nestedBlock : ast.Block)
  : errors.List * Script :=
  let (errs, parsedScript) := st in
  if String.eqb (ast.Type_ nestedBlock) "job" then
    let (parsedJobBlock, err) := jobResult nestedBlock in
    (errors.AppendAll errs err,
     mkScript (script_Labels parsedScript) (script_Description parsedScript)
       (script_Jobs parsedScript ++ [parsedJobBlock]))
  else
    (errors.Append errs
       (errors.E ErrScriptUnknownBlock (ast.TypeRange nestedBlock)
          (Some (ast.Type_ nestedBlock))),
     parsedScript).

Definition scriptResult (block : ast.Block) : option Script * option errors.List :=
  let errs : errors.List := [] in
  let errs :=
    if negb (Nat.eqb (length (ast.Labels block)) 2) then
      errors.Append errs (errors.E ErrScriptTwoLabels (ast.OpenBraceRange block) None)
    else if String.eqb (nth 0 (ast.Labels block) "") "" then
      errors.Append errs (errors.E ErrScriptEmptyLabel (ast.OpenBraceRange block) None)
    else errs in
  let parsedScript := mkScript (ast.Labels block) None [] in
  let errs :=
    if Nat.eqb (length (ast.Attributes block)) 0 then
      errors.Append errs (errors.E ErrScriptNoAttrs (ast.OpenBraceRange block) None)
    else errs in
  let (errs, parsedScript) :=
    foldl scriptAttributeStep (errs, parsedScript) (ast.Attributes block) in
  let errs :=
    if Nat.ltb (length (ast.Blocks block)) 1 then
      errors.Append errs (errors.E ErrScriptNoBlocks (ast.TypeRange block) None)
    else errs in
  let (errs, parsedScript) :=
    foldl scriptBlockStep (errs, parsedScript) (ast.Blocks block) in
  match errors.AsError errs with
  | Some err => (None, Some err)
  | None => (Some parsedScript, None)
  end.

(** The errors one attribute of a job adds. *)
Definition jobAttributeErrors (attr : ast.Attribute) : errors.List :=
  if String.eqb (ast.Name attr) "command" then
    if commandOK attr then []
    else [errors.E ErrScriptInvalidCmd (ast.NameRange attr) (Some (ast.Name attr))]
  else if String.eqb (ast.Name attr) "commands" then
    match commandsOf attr with
    | Some _ => []
    | None => [errors.E ErrScriptInvalidCmds (ast.NameRange attr) (Some (ast.Name attr))]
    end
  else [errors.E ErrScriptUnknownAttr (ast.NameRange attr) (Some (ast.Name attr))].

Definition validCommand (attr : ast.Attribute) : bool :=
  String.eqb (ast.Name attr) "command" && commandOK attr.

Definition validCommands (attr : ast.Attribute) : bool :=
  String.eqb (ast.Name attr) "commands" && bool_decide (is_Some (commandsOf attr)).

(** The errors of a job block, in the order of their detection. *)
Definition jobErrors (block : ast.Block) : errors.List :=
  flat_map jobAttributeErrors (ast.Attributes block)
  ++ (if existsb validCommand (ast.Attributes block)
         && existsb validCommands (ast.Attributes block)
      then [errors.E ErrScriptCmdConflict (ast.TypeRange block) None]
      else []).

(** The errors one attribute of a script adds. *)
Definition scriptAttributeErrors (attr : ast.Attribute) : errors.List :=
  if String.eqb (ast.Name attr) "description" then
    if descriptionOK attr then []
    else [errors.E ErrScriptInvalidDesc (ast.NameRange attr) None]
  else [errors.E ErrScriptUnknownAttr (ast.NameRange attr) None].

Definition validDescriptionAttr (attr : ast.Attribute) : bool :=
  String.eqb (ast.Name attr) "description" && descriptionOK attr.

Definition isJobBlock (nestedBlock : ast.Block) : bool :=
  String.eqb (ast.Type_ nestedBlock) "job".

(** The errors one nested block of a script adds. *)
Definition scriptBlockErrors (nestedBlock : ast.Block) : errors.List :=
  if String.eqb (ast.Type_ nestedBlock) "job" then jobErrors nestedBlock
  else [errors.E ErrScriptUnknownBlock (ast.TypeRange nestedBlock)
          (Some (ast.Type_ nestedBlock))].

Definition labelErrors (block : ast.Block) : errors.List :=
  if negb (Nat.eqb (length (ast.Labels block)) 2) then
    [errors.E ErrScriptTwoLabels (ast.OpenBraceRange block) None]
  else if String.eqb (nth 0 (ast.Labels block) "") "" then
    [errors.E ErrScriptEmptyLabel (ast.OpenBraceRange block) None]
  else [].

(** The errors of a script block, in the order of their detection. *)
Definition scriptErrors (block : ast.Block) : errors.List :=
  labelErrors block
  ++ (if Nat.eqb (length (ast.Attributes block)) 0
      then [errors.E ErrScriptNoAttrs (ast.OpenBraceRange block) None] else [])
  ++ flat_map scriptAttributeErrors (ast.Attributes block)
  ++ (if Nat.ltb (length (ast.Blocks block)) 1
      then [errors.E ErrScriptNoBlocks (ast.TypeRange block) None] else [])
  ++ flat_map scriptBlockErrors (ast.Blocks block).

End ScriptResults.

(** The fixtures of [TestHCLScript]. *)
Definition rangeAt (line column byte line' column' byte' : nat) : ast.Range :=
  ast.mkRange "script.tm" (ast.mkPos line column byte) (ast.mkPos line' column' byte').

(** The strings of a tuple of strings; anything else is an error. *)
Definition stringList (val : cty.Value) : option (list string) :=
  match val with
  | cty.TupleVal elems => mapM cty.AsString elems
  | _ => None
  end.

Definition stringsVal (l : list string) : cty.Value :=
  cty.TupleVal (cty.StringVal <$> l).

Definition evaluated (val : cty.Value) : ast.Expression := ast.mkExpression val false.

Definition someDescription : ast.Attribute :=
  ast.mkAttribute "description" (rangeAt 3 9 43 3 20 54)
    (evaluated (cty.StringVal "some description")).

Definition echoHello : ast.Attribute :=
  ast.mkAttribute "command" (rangeAt 5 8 97 5 15 104)
    (evaluated (stringsVal ["echo"; "hello"])).

Definition helloBye : ast.Attribute :=
  ast.mkAttribute "commands" (rangeAt 5 8 97 5 16 105)
    (evaluated (cty.TupleVal [stringsVal ["echo"; "hello"]; stringsVal ["echo"; "bye"]])).

(** [command = ["ls", 1, "-l"]] and [commands = [["ls"], ["ls", 123]]]. *)
Definition invalidCommand : ast.Attribute :=
  ast.mkAttribute "command" (rangeAt 5 8 97 5 15 104)
    (evaluated (cty.TupleVal [cty.StringVal "ls"; cty.NumberVal 1; cty.StringVal "-l"])).

Definition invalidCommands : ast.Attribute :=
  ast.mkAttribute "commands" (rangeAt 5 8 97 5 16 105)
    (evaluated (cty.TupleVal [stringsVal ["ls"];
                              cty.TupleVal [cty.StringVal "ls"; cty.NumberVal 123]])).

Definition jobBlock (attrs : list ast.Attribute) : ast.Block :=
  ast.mkBlock "job" (rangeAt 4 7 81 4 10 84) [] (rangeAt 4 11 85 4 12 86) attrs [].

Definition scriptOf (attrs : list ast.Attribute) (blocks : list ast.Block) : ast.Block :=
  ast.mkBlock "script" (rangeAt 2 7 7 2 13 13) ["group1"; "script1"]
    (rangeAt 2 33 33 2 34 34) attrs blocks.

Definition unknownAttr : ast.Attribute :=
  ast.mkAttribute "unknownattr" (rangeAt 4 9 84 4 20 95) (evaluated (cty.StringVal "abc")).

Definition emptyDescription : ast.Attribute :=
  ast.mkAttribute "description" (rangeAt 3 9 43 3 20 54) (evaluated (cty.StringVal "")).

(** [description = 1] and [commands = "ls"]: not in the tests. *)
Definition numberDescription : ast.Attribute :=
  ast.mkAttribute "description" (rangeAt 3 9 43 3 20 54) (evaluated (cty.NumberVal 1)).

Definition stringCommands : ast.Attribute :=
  ast.mkAttribute "commands" (rangeAt 5 8 97 5 16 105) (evaluated (cty.StringVal "ls")).

Definition block1 : ast.Block :=
  ast.mkBlock "block1" (rangeAt 4 8 75 4 14 81) [] (rangeAt 4 15 82 4 16 83) [] [].

(** A detached HEAD at the commit of [origin/main]. *)
Definition detachedAtMain : project :=
  exampleProject
    (exampleGit (git.Ok "c0de") (git.Ok "c0de") (git.Ok true) (git.Err notARepository)
       (git.Ok true) (git.Ok "c0de") (git.Ok "c0de") (git.Ok [originRemote])).

(** The feature branch with a second remote. *)
Definition twoRemotes : project :=
  exampleProject
    (exampleGit (git.Ok "f00d") (git.Ok "c0de") (git.Ok false) (git.Ok "feature")
       (git.Ok false) (git.Ok "c0de") (git.Ok "c0de")
       (git.Ok [git.mkRemote "upstream" ["trunk"]; originRemote])).

(** A configuration that sets the default remote only. *)
Definition upstreamOnly : hcl.Config :=
  hcl.mkConfig (Some (hcl.mkTerramate (Some (hcl.mkRootConfig
    (Some (hcl.mkGitConfig "" "" "upstream")))))).

(** The repository of the feature branch after HEAD and the remote branch
    moved: only the merge-base answer is as before. *)
Definition headMoved : git.Git :=
  exampleGit (git.Ok "0ld1") (git.Ok "beef") (git.Ok true) (git.Ok "feature")
    (git.Ok false) (git.Ok "0ld1") (git.Ok "c0de") (git.Ok [originRemote]).

(** * Properties *)

(** ** The base revision *)

Section BaseRevision.

Implicit Types (p : project) (r : git.result string) (b : git.result bool).

Lemma discard_holds b : git.discard false b = holds b.
Proof. by destruct b. Qed.

Lemma resolved_Some r v : resolved r = Some v ↔ r = git.Ok v ∧ v ≠ "".
Proof.
  destruct r as [w|e]; simpl.
  - destruct (String.eqb_spec w "") as [->|Hw]; split.
    + discriminate.
    + intros [[= <-] Hv]. by destruct Hv.
    + by intros [= <-].
    + by intros [[= <-] _].
  - split; [discriminate|]. by intros [? _].
Qed.

Lemma resolved_None r : resolved r = None ↔ git.discard "" r = "".
Proof.
  destruct r as [w|e]; simpl; [|done].
  destruct (String.eqb_spec w "") as [->|Hw]; [done|].
  split; [discriminate|]. intros ->. by destruct Hw.
Qed.

Lemma resolved_discard r v : resolved r = Some v → git.discard "" r = v.
Proof. intros [-> _]%resolved_Some. done. Qed.

(** The source's [x != "" && x == y] is equality of resolved names. *)
Lemma nonempty_eqb_resolved r r' :
  negb (String.eqb (git.discard "" r) "")
    && String.eqb (git.discard "" r) (git.discard "" r')
  = match resolved r, resolved r' with
    | Some h, Some c => String.eqb h c
    | _, _ => false
    end.
Proof.
  destruct (resolved r) as [h|] eqn:Hr.
  - pose proof Hr as [-> Hh]%resolved_Some. simpl.
    apply String.eqb_neq in Hh as Hh'. rewrite Hh'. simpl.
    destruct (resolved r') as [c|] eqn:Hr'.
    + by rewrite (resolved_discard _ _ Hr').
    + apply resolved_None in Hr'. rewrite Hr'. by apply String.eqb_neq.
  - apply resolved_None in Hr. rewrite Hr. done.
Qed.

Lemma isRemoteDefaultRev_observed p :
  negb (String.eqb (git.discard "" (git.RevParse (git_wrapper p) "HEAD")) "")
    && String.eqb (git.discard "" (git.RevParse (git_wrapper p) "HEAD"))
         (git.discard "" (git.RevParse (git_wrapper p) (remoteDefaultBranchRef p)))
  = headIsRemoteDefault (observe p).
Proof. apply nonempty_eqb_resolved. Qed.

Lemma isDefaultBranch_observed p :
  negb (String.eqb (git.discard "" (git.CurrentBranch (git_wrapper p))) "")
    && String.eqb (git.discard "" (git.CurrentBranch (git_wrapper p)))
         (hcl.DefaultBranch (gitcfg p))
  = onDefaultBranch (gitcfg p) (observe p).
Proof.
  unfold onDefaultBranch, observe; simpl.
  destruct (resolved (git.CurrentBranch (git_wrapper p))) as [v|] eqn:Hb.
  - pose proof Hb as [-> Hv]%resolved_Some. simpl.
    apply String.eqb_neq in Hv. by rewrite Hv.
  - apply resolved_None in Hb. by rewrite Hb.
Qed.



Lemma remoteDefaultBranchRef_nonempty p : remoteDefaultBranchRef p ≠ "".
Proof.
  unfold remoteDefaultBranchRef.
  destruct (hcl.DefaultRemote (gitcfg p)); simpl; discriminate.
Qed.

(** The revision is the remote default ref, the configured base ref or
    a fork point that was found. *)
Lemma defaultBaseRev_range p :
  defaultBaseRev p = remoteDefaultBranchRef p
  ∨ defaultBaseRev p = hcl.DefaultBranchBaseRef (gitcfg p)
  ∨ (defaultBaseRev p ≠ ""
     ∧ resolved (git.FindForkPoint (git_wrapper p) (remoteDefaultBranchRef p) "HEAD")
       = Some (defaultBaseRev p)).
Proof.
  unfold defaultBaseRev. cbv zeta.
  repeat match goal with
         | |- context [if ?c then _ else _] => destruct c eqn:?
         end; auto.
  right; right.
  match goal with H : negb (String.eqb ?f "") = true |- _ =>
    apply negb_true_iff, String.eqb_neq in H; split; [exact H|] end.
  apply resolved_Some. split; [|done].
  destruct (git.FindForkPoint _ _ _); [done|by simpl in *].
Qed.

(** C9. When the configured git defaults are non-empty, [defaultBaseRev]
    never returns the empty string: each of its branches yields the
    remote default ref, the configured base ref or a non-empty fork
    point. *)
Theorem defaultBaseRev_nonempty p :
  hcl.DefaultRemote (gitcfg p) ≠ "" →
  hcl.DefaultBranch (gitcfg p) ≠ "" →
  hcl.DefaultBranchBaseRef (gitcfg p) ≠ "" →
  defaultBaseRev p ≠ "".
Proof.
  intros _ _ Hbase.
  destruct (defaultBaseRev_range p) as [-> | [-> | [Hne _]]]; [|done..].
  apply remoteDefaultBranchRef_nonempty.
Qed.

(** C10. When the [IsAncestor("HEAD", remote default ref)] probe fails
    while HEAD's resolved commit is absent or differs from the remote
    default commit, [defaultBaseRev] returns the remote default ref
    (case 1), not the fallback of case 6. *)
Theorem failed_ancestry_probe_is_pending p e :
  git.IsAncestor (git_wrapper p) "HEAD" (remoteDefaultBranchRef p) = git.Err e →
  resolved (git.RevParse (git_wrapper p) "HEAD") = None
  ∨ resolved (git.RevParse (git_wrapper p) "HEAD")
    ≠ resolved (git.RevParse (git_wrapper p) (remoteDefaultBranchRef p)) →
  defaultBaseRev p = remoteDefaultBranchRef p.
Proof.
  intros Hanc Hhead. unfold defaultBaseRev. cbv zeta.
  rewrite Hanc, nonempty_eqb_resolved. simpl.
  destruct (resolved (git.RevParse (git_wrapper p) "HEAD")) as [h|];
    [|done].
  destruct (resolved (git.RevParse (git_wrapper p) (remoteDefaultBranchRef p)))
    as [c|]; [|done].
  destruct (String.eqb_spec h c) as [->|]; [|done].
  by destruct Hhead.
Qed.

(** Past the first three cases, failed first-parent and fork-point probes
    do fall back to the configured base ref. *)
Lemma failed_late_probes_fall_back p e e' :
  headIsRemoteDefault (observe p) = false →
  headIsAncestorOfRemoteDefault (observe p) = true →
  git.IsFirstParentAncestor (git_wrapper p) (remoteDefaultBranchRef p) "HEAD"
  = git.Err e →
  git.FindForkPoint (git_wrapper p) (remoteDefaultBranchRef p) "HEAD" = git.Err e' →
  defaultBaseRev p = hcl.DefaultBranchBaseRef (gitcfg p).
Proof.
  intros Hsame Hanc Hfirst Hfork. unfold defaultBaseRev. cbv zeta.
  rewrite isRemoteDefaultRev_observed, Hsame, Hfirst, Hfork.
  rewrite (discard_holds (git.IsAncestor _ _ _)).
  change (holds (git.IsAncestor (git_wrapper p) "HEAD" (remoteDefaultBranchRef p)))
    with (headIsAncestorOfRemoteDefault (observe p)).
  by rewrite Hanc.
Qed.

Lemma discard_negative {A : Type} (zero : A) (r : git.result A) :
  git.discard zero (negative zero r) = git.discard zero r.
Proof. by destruct r. Qed.

(** C3 (amended). Resolution never fails: each failed query of
    [defaultBaseRev] counts as its negative answer (false, empty, no
    fork point), and the revision returned is the one the six cases give
    for these answers; when every query fails this is the remote default
    ref of case 1, not [DefaultBranchBaseRef]. *)
Theorem failed_queries_are_negative_answers p e :
  defaultBaseRev p = defaultBaseRev (set_wrapper (negativeAnswers (git_wrapper p)) p)
  ∧ defaultBaseRev (set_wrapper (failing e) p) = remoteDefaultBranchRef p.
Proof.
  split; [|done].
  unfold defaultBaseRev, remoteDefaultBranchRef. simpl.
  by rewrite !discard_negative.
Qed.

End BaseRevision.

(** C3 (as stated) fails: on a feature branch whose ancestry probe fails,
    a query of [defaultBaseRev] failed and the revision returned is
    [origin/main], not the fallback base ref [HEAD^]. *)
Lemma failed_probe_not_fallback :
  someProbeFailed ancestryProbeFails = true
  ∧ defaultBaseRev ancestryProbeFails = "origin/main"
  ∧ defaultBaseRev ancestryProbeFails
    ≠ hcl.DefaultBranchBaseRef (gitcfg ancestryProbeFails).
Proof. split; [reflexivity|]. split; [reflexivity|]. by vm_compute. Qed.

Lemma defaultBaseRev_nonempty_witness : defaultBaseRev mergedBranch ≠ "".
Proof. apply (defaultBaseRev_nonempty mergedBranch); by vm_compute. Defined.

Lemma failed_ancestry_probe_is_pending_witness :
  defaultBaseRev ancestryProbeFails = remoteDefaultBranchRef ancestryProbeFails.
Proof.
  apply (failed_ancestry_probe_is_pending ancestryProbeFails notARepository).
  - reflexivity.
  - right. by vm_compute.
Defined.

(** ** The repository checks *)

Section RepositoryChecks.

Variable defaultRemote : string.

Lemma findRemote_Some name remotes r :
  findRemote name remotes = Some r ↔ firstNamed name remotes r.
Proof.
  induction remotes as [|x rest IH]; simpl.
  - split; [discriminate|]. intros (before & after & Heq & _).
    by destruct before.
  - destruct (String.eqb_spec (git.Name x) name) as [Hx|Hx].
    + split.
      * intros [= <-]. by exists [], rest.
      * intros (before & after & Heq & Hr & Hbefore).
        destruct before as [|y before]; simplify_eq/=; [done|].
        by apply Forall_cons in Hbefore as [[] _].
    + rewrite IH. split.
      * intros (before & after & -> & Hr & Hbefore).
        exists (x :: before), after. by repeat constructor.
      * intros (before & after & Heq & Hr & Hbefore).
        destruct before as [|y before]; simplify_eq/=.
        apply Forall_cons in Hbefore as [_ Hbefore].
        by exists before, after.
Qed.

Lemma findRemote_None name remotes :
  findRemote name remotes = None ↔ name ∉ git.Name <$> remotes.
Proof.
  induction remotes as [|x rest IH]; simpl.
  - split; [|done]. intros _. apply not_elem_of_nil.
  - rewrite not_elem_of_cons.
    destruct (String.eqb_spec (git.Name x) name) as [Hx|Hx].
    + split; [discriminate|]. by intros [[] _].
    + rewrite IH. split; [by split|by intros [_ ?]].
Qed.

Lemma hasBranch_elem_of name branches :
  hasBranch name branches = true ↔ name ∈ branches.
Proof.
  induction branches as [|b rest IH]; simpl.
  - split; [discriminate|]. by intros ?%elem_of_nil.
  - rewrite elem_of_cons.
    destruct (String.eqb_spec b name) as [->|Hb]; [by split; [left|]|].
    rewrite IH. split; [by right|]. by intros [->|?].
Qed.

(** When the remote names of a listing are distinct, the first remote of
    a name is the only one. *)
Lemma firstNamed_unique_names name remotes r :
  NoDup (git.Name <$> remotes) →
  firstNamed name remotes r ↔ r ∈ remotes ∧ git.Name r = name.
Proof.
  intros Hnodup. split.
  - intros (before & after & -> & Hr & _). split; [|done].
    apply elem_of_app. right. apply elem_of_cons. by left.
  - intros [(before & after & ->)%list_elem_of_split Hr].
    exists before, after. split; [done|]. split; [done|].
    rewrite fmap_app, fmap_cons in Hnodup.
    apply NoDup_app in Hnodup as (_ & Hdisj & _).
    apply Forall_forall. intros x Hx Hname.
    apply (Hdisj (git.Name x)); [by apply list_elem_of_fmap_2|].
    rewrite Hname, <- Hr. apply elem_of_cons. by left.
Qed.

(** C7. Given the listing of the configured remotes, [checkDefaultRemote]
    succeeds iff the configured default remote is among them and the
    configured default branch is among the branches of that remote;
    otherwise its error names the missing remote, or names the remote and
    the missing branch and lists the branches the remote has. *)
Theorem checkDefaultRemote_spec p remotes :
  git.Remotes (git_wrapper p) = git.Ok remotes →
  let remote := hcl.DefaultRemote (gitcfg p) in
  let branch := hcl.DefaultBranch (gitcfg p) in
  (checkDefaultRemote defaultRemote p = None
   ↔ ∃ r, firstNamed remote remotes r ∧ branch ∈ git.Branches r)
  ∧ (remote ∉ git.Name <$> remotes →
     checkDefaultRemote defaultRemote p
     = Some (Errorf "repository must have a configured %q remote"
               [ArgString remote]))
  ∧ (∀ r, firstNamed remote remotes r → branch ∉ git.Branches r →
     checkDefaultRemote defaultRemote p
     = Some (Errorf "remote %q has no default branch %q,branches:%v"
               [ArgString remote; ArgString branch;
                ArgStrings (git.Branches r)])).
Proof.
  intros Hremotes remote branch. unfold checkDefaultRemote.
  rewrite Hremotes. fold remote branch.
  destruct (findRemote remote remotes) as [defRemote|] eqn:Hfind.
  - pose proof Hfind as Hfirst%findRemote_Some.
    assert (∀ r, firstNamed remote remotes r → r = defRemote) as Hsame.
    { intros r Hr%findRemote_Some. congruence. }
    destruct (hasBranch branch (git.Branches defRemote)) eqn:Hbranch.
    + apply hasBranch_elem_of in Hbranch. split; [|split].
      * split; [eauto|done].
      * intros Hmissing%findRemote_None. congruence.
      * intros r ->%Hsame Hno. by destruct Hno.
    + assert (branch ∉ git.Branches defRemote) as Hno.
      { intros Hin%hasBranch_elem_of. congruence. }
      split; [|split].
      * split; [discriminate|]. intros (r & ->%Hsame & Hin). by destruct Hno.
      * intros Hmissing%findRemote_None. congruence.
      * by intros r ->%Hsame _.
  - split; [|split].
    + split; [discriminate|].
      intros (r & Hr%findRemote_Some & _). congruence.
    + done.
    + intros r Hr%findRemote_Some. congruence.
Qed.

(** When the listing of the remotes itself fails, the error names the
    package constant [defaultRemote] and carries the cause. *)
Lemma checkDefaultRemote_listing_fails p err :
  git.Remotes (git_wrapper p) = git.Err err →
  checkDefaultRemote defaultRemote p
  = Some (Errorf "checking if remote %q exists: %v"
            [ArgString defaultRemote; ArgError err]).
Proof. intros Hremotes. unfold checkDefaultRemote. by rewrite Hremotes. Qed.

End RepositoryChecks.

Section HeadFreshness.

Variable ErrCurrentHeadIsOutOfDate : string.

(** Once [headCommit] returned, it returns the same commit again and
    leaves the project as it is. *)
Lemma headCommit_memo p head p1 :
  headCommit p = Done head p1 →
  headCommit p1 = Done head p1
  ∧ git_wrapper p1 = git_wrapper p
  ∧ gitcfg p1 = gitcfg p
  ∧ git_remoteDefaultBranchCommit p1 = git_remoteDefaultBranchCommit p.
Proof.
  unfold headCommit.
  destruct (String.eqb (git_headCommit p) "") eqn:Hmemo; simpl.
  - destruct (git.RevParse (git_wrapper p) "HEAD") as [val|] eqn:Hrev; [|done].
    intros [= <- <-]. simpl. rewrite Hrev.
    by destruct (String.eqb val "").
  - intros [= <- <-]. by rewrite Hmemo.
Qed.

Lemma remoteDefaultCommit_memo p remoteDefault p2 :
  remoteDefaultCommit p = Done remoteDefault p2 →
  remoteDefaultCommit p2 = Done remoteDefault p2
  ∧ git_wrapper p2 = git_wrapper p
  ∧ git_headCommit p2 = git_headCommit p.
Proof.
  unfold remoteDefaultCommit.
  destruct (String.eqb (git_remoteDefaultBranchCommit p) "") eqn:Hmemo; simpl.
  - destruct (git.FetchRemoteRev _ _ _) as [ref|] eqn:Hfetch; [|done].
    intros [= <- <-]. simpl. rewrite Hfetch.
    by destruct (String.eqb (git.CommitID ref) "").
  - intros [= <- <-]. by rewrite Hmemo.
Qed.

(** The check runs the two memoized queries, then the merge-base query. *)
Lemma check_unfold p head remoteDefault p1 p2 :
  headCommit p = Done head p1 →
  remoteDefaultCommit p1 = Done remoteDefault p2 →
  checkRemoteDefaultBranchIsReachable ErrCurrentHeadIsOutOfDate p =
    match git.MergeBase (git_wrapper p) head remoteDefault with
    | git.Ok mergeBase =>
        if String.eqb mergeBase remoteDefault then Done None p2
        else Done (Some (outOfDateErr ErrCurrentHeadIsOutOfDate)) p2
    | git.Err _ => Done (Some (outOfDateErr ErrCurrentHeadIsOutOfDate)) p2
    end.
Proof.
  intros Hhead Hremote.
  destruct (headCommit_memo _ _ _ Hhead) as (Hhead1 & Hgw1 & _ & _).
  destruct (remoteDefaultCommit_memo _ _ _ Hremote) as (Hremote2 & Hgw2 & Hmemo2).
  assert (headCommit p2 = Done head p2) as Hhead2.
  { revert Hhead1. unfold headCommit. rewrite Hmemo2, Hgw2.
    destruct (String.eqb (git_headCommit p1) "") eqn:Hempty; simpl.
    - destruct (git.RevParse (git_wrapper p1) "HEAD") as [val|]; [|done].
      intros [= <- Hp1]. f_equal.
      apply (f_equal git_headCommit) in Hp1. simpl in Hp1.
      destruct p2; unfold set_headCommit; simpl in *. congruence.
    - by intros [= <-]. }
  unfold checkRemoteDefaultBranchIsReachable, mbind, M_bind, wrapper.
  rewrite Hhead, Hremote, Hhead2, Hremote2, Hgw2, Hgw1.
  destruct (git.MergeBase (git_wrapper p) head remoteDefault) as [m|]; [|done].
  rewrite Hremote2. by destruct (String.eqb m remoteDefault).
Qed.

(** C4. With HEAD and the remote default branch resolved to commits,
    [checkRemoteDefaultBranchIsReachable] succeeds iff the merge-base
    query of the two commits succeeds and yields the remote default
    commit itself; it fails, with the out-of-date error, exactly when no
    merge-base can be determined or the merge-base differs from the
    remote default commit. *)
Theorem checkRemoteDefaultBranchIsReachable_spec p head remoteDefault p1 p2 :
  headCommit p = Done head p1 →
  remoteDefaultCommit p1 = Done remoteDefault p2 →
  let mergeBase := git.MergeBase (git_wrapper p) head remoteDefault in
  (checkRemoteDefaultBranchIsReachable ErrCurrentHeadIsOutOfDate p = Done None p2 ↔ mergeBase = git.Ok remoteDefault)
  ∧ (checkRemoteDefaultBranchIsReachable ErrCurrentHeadIsOutOfDate p = Done (Some (outOfDateErr ErrCurrentHeadIsOutOfDate)) p2
     ↔ git.failed mergeBase = true
       ∨ ∃ m, mergeBase = git.Ok m ∧ m ≠ remoteDefault)
  ∧ (checkRemoteDefaultBranchIsReachable ErrCurrentHeadIsOutOfDate p = Done None p2 ∨ checkRemoteDefaultBranchIsReachable ErrCurrentHeadIsOutOfDate p = Done (Some (outOfDateErr ErrCurrentHeadIsOutOfDate)) p2).
Proof.
  intros Hhead Hremote mergeBase.
  rewrite (check_unfold _ _ _ _ _ Hhead Hremote). fold mergeBase.
  destruct mergeBase as [m|e]; simpl.
  - destruct (String.eqb_spec m remoteDefault) as [->|Hm].
    + split; [done|]. split; [|by left].
      split; [discriminate|]. intros [?|(m & [= <-] & Hm)]; [done|].
      by destruct Hm.
    + split; [|split; [|by right]].
      * split; [discriminate|]. intros [= ->]. by destruct Hm.
      * split; [|done]. intros _. right. by exists m.
  - split; [done|]. split; [|by right]. split; [by left|done].
Qed.

(** When HEAD or the remote default branch cannot be resolved, the
    process ends in [logger.Fatal] and no merge-base query is made. *)
Lemma check_fatal p :
  returned (checkRemoteDefaultBranchIsReachable ErrCurrentHeadIsOutOfDate p) = None
  ↔ returned (headCommit p) = None
    ∨ ∃ head p1, headCommit p = Done head p1
                 ∧ returned (remoteDefaultCommit p1) = None.
Proof.
  destruct (headCommit p) as [head p1|e] eqn:Hhead.
  - destruct (remoteDefaultCommit p1) as [remote p2|e] eqn:Hremote.
    + rewrite (check_unfold _ _ _ _ _ Hhead Hremote).
      split.
      * destruct (git.MergeBase _ _ _) as [m|]; [|done].
        by destruct (String.eqb m remote).
      * intros [?|(? & ? & [= <- <-] & Hnone)]; [done|].
        by rewrite Hremote in Hnone.
    + unfold checkRemoteDefaultBranchIsReachable, mbind, M_bind.
      rewrite Hhead, Hremote. simpl. split; [|done].
      intros _. right. exists head, p1. by rewrite Hremote.
  - unfold checkRemoteDefaultBranchIsReachable, mbind, M_bind.
    rewrite Hhead. simpl. split; [by left|done].
Qed.

End HeadFreshness.

(** ** The configuration defaults *)

Section Defaults.

Variable defaultRemote defaultBranch defaultBranchBaseRef : string.
Variable NewGitConfig : hcl.GitConfig.

(** After [setDefaults] the git block exists and, when the package
    defaults are non-empty, so are its three options. *)
Lemma setDefaults_fills cfg :
  defaultRemote ≠ "" → defaultBranch ≠ "" → defaultBranchBaseRef ≠ "" →
  let (cfg', err) :=
    setDefaults defaultRemote defaultBranch defaultBranchBaseRef NewGitConfig cfg in
  err = None
  ∧ ∃ g, hcl.git_of cfg' = Some g
         ∧ hcl.DefaultRemote g ≠ ""
         ∧ hcl.DefaultBranch g ≠ ""
         ∧ hcl.DefaultBranchBaseRef g ≠ "".
Proof.
  intros Hremote Hbranch Hbase. unfold setDefaults. cbv zeta.
  split; [done|]. eexists. split; [reflexivity|]. simpl.
  repeat split.
  all: match goal with
       | |- (if String.eqb ?x "" then _ else _) ≠ "" =>
           destruct (String.eqb_spec x ""); done
       end.
Qed.

End Defaults.

(** ** The [list] command *)

Section ListCommand.

Implicit Types (env : Env) (crit : Criteria) (s : Stack)
  (r : cloud.StackResponse) (records : list cloud.StackResponse).

Lemma statusLookup_snoc repo records r :
  statusLookup repo (records ++ [r]) =
    if String.eqb (cloud.Repository (cloud.Stack_ r)) repo
    then <[recordMetaID r := r]> (statusLookup repo records)
    else statusLookup repo records.
Proof. unfold statusLookup. by rewrite foldl_snoc. Qed.


(** A record found in the lookup is a record of the current repository
    with the looked-up metaID. *)
Lemma statusLookup_Some repo records k r :
  statusLookup repo records !! k = Some r →
  r ∈ records ∧ sameRepository repo r ∧ recordMetaID r = k.
Proof.
  induction records as [|x records IH] using rev_ind; [done|].
  rewrite statusLookup_snoc, elem_of_app, list_elem_of_singleton.
  destruct (String.eqb_spec (cloud.Repository (cloud.Stack_ x)) repo) as [Hx|Hx].
  - destruct (decide (recordMetaID x = k)) as [<-|Hk].
    + rewrite lookup_insert_eq. intros [= <-]. auto.
    + rewrite lookup_insert_ne by done. intros (? & ? & ?)%IH. auto.
  - intros (? & ? & ?)%IH. auto.
Qed.



Lemma Status_eqb_eq (a b : stack.Status) : stack.Status_eqb a b = true ↔ a = b.
Proof. by destruct a, b. Qed.

Lemma isUnhealthy_true repo records s :
  isUnhealthy (statusLookup repo records) s = true →
  metaID s ≠ ""
  ∧ ∃ r, r ∈ records
         ∧ recordMetaID r = metaID s
         ∧ cloud.Repository (cloud.Stack_ r) = repo
         ∧ cloud.Status r ≠ stack.OK.
Proof.
  unfold isUnhealthy.
  destruct (String.eqb_spec (metaID s) "") as [|Hid]; [done|].
  destruct (statusLookup repo records !! metaID s) as [r|] eqn:Hr; [|done].
  apply statusLookup_Some in Hr as (Hin & Hsame & Hmeta).
  intros Hst%negb_true_iff. split; [done|]. exists r.
  repeat split; try done.
  intros Hok%Status_eqb_eq. congruence.
Qed.


Lemma elem_of_sortStacks s stacks : s ∈ sortStacks stacks ↔ s ∈ stacks.
Proof. unfold sortStacks. by rewrite merge_sort_Permutation. Qed.

(** [String.le] compares byte by byte: it is the lexicographic order of
    Go's string comparison. *)
Lemma String_le_lexicographic (a b : ascii) (u v : string) :
  String.le (String a u) (String b v)
  ↔ (Ascii.N_of_ascii a < Ascii.N_of_ascii b)%N ∨ (a = b ∧ String.le u v).
Proof.
  unfold String.le, String.leb. simpl. unfold Ascii.compare.
  destruct (N.compare_spec (Ascii.N_of_ascii a) (Ascii.N_of_ascii b))
    as [Heq|Hlt|Hgt].
  - assert (a = b) as ->.
    { by rewrite <- (Ascii.ascii_N_embedding a), Heq, Ascii.ascii_N_embedding. }
    split; [by right|]. intros [Hlt|[_ Hle]]; [lia|done].
  - split; [by left|done].
  - split; [done|]. intros [Hlt|[-> _]]; lia.
Qed.

Lemma String_le_empty (v : string) : String.le "" v.
Proof. by destruct v. Qed.

#[local] Instance path_le_total : Total path_le.
Proof. intros a b. unfold path_le. apply total, _. Qed.



Lemma tagFilter_no_tags s : tagFilter noFlags s = true.
Proof.
  unfold tagFilter, noFlags. simpl. by apply forallb_forall.
Qed.


(** A run with a status flag that yields stacks accepted the flag and
    fetched the records once. *)
Lemma listStacks_status_inv env crit value out tr :
  statusFilter crit = Some value →
  listStacks env crit [] = (inr out, tr) →
  ∃ records,
    value = "unhealthy"
    ∧ statusSource env = Records records
    ∧ tr = [FetchStatus]
    ∧ out = sortStacks (cloudHealthFilter (repository env) records
                          (filter (λ s, tagFilter crit s) (inventory env))).
Proof.
  intros Hflag.
  unfold listStacks, mbind, Cmd_bind, checkStatusFilter, fetchStatus, fatal.
  rewrite Hflag.
  destruct (String.eqb_spec value "unhealthy") as [->|Hvalue]; simpl; [|done].
  destruct (filesystemRemote env); [done|]. simpl.
  destruct (statusSource env) as [records|msg]; [|done].
  intros [= <- <-]. by exists records.
Qed.

(** The lookup keeps the last record of a metaID. *)



(** C5. A stack whose metaID is empty is in no result of a run with the
    unhealthy status filter, whatever the remote status data, and is in
    the default listing, run with no filter. *)
Theorem stack_without_metaID env s :
  metaID s = "" →
  s ∈ inventory env →
  (∀ source crit out tr,
     statusFilter crit = Some "unhealthy" →
     listStacks (set_statusSource source env) crit [] = (inr out, tr) →
     s ∉ out)
  ∧ (∀ source, ∃ out,
       listStacks (set_statusSource source env) noFlags [] = (inr out, [])
       ∧ s ∈ out).
Proof.
  intros Hid Hin. split.
  - intros source crit out tr Hflag Hrun Hout.
    destruct (listStacks_status_inv _ _ _ _ _ Hflag Hrun)
      as (records & _ & _ & _ & ->).
    apply elem_of_sortStacks, list_elem_of_filter in Hout as [Hbad _].
    apply Is_true_true, isUnhealthy_true in Hbad as [Hne _]. done.
  - intros source. eexists. split; [reflexivity|].
    apply elem_of_sortStacks, list_elem_of_filter. split; [|done].
    apply Is_true_true, tagFilter_no_tags.
Qed.

(** C6. A run whose status filter value is not [unhealthy] is rejected
    before anything is fetched, with the message "only unhealthy filter
    allowed" and exit code 1; [unhealthy] passes this check. *)
Theorem only_unhealthy_filter_allowed env crit value :
  statusFilter crit = Some value →
  (value ≠ "unhealthy" →
   run env crit = (mkRunResult 1 "" "only unhealthy filter allowed", []))
  ∧ (value = "unhealthy" →
     (checkStatusFilter env value []).1 ≠ inl "only unhealthy filter allowed").
Proof.
  intros Hflag. split.
  - intros Hvalue%String.eqb_neq.
    unfold run, listStacks, mbind, Cmd_bind, checkStatusFilter, fatal.
    by rewrite Hflag, Hvalue.
  - intros ->. unfold checkStatusFilter, fatal. simpl.
    by destruct (filesystemRemote env).
Qed.



End ListCommand.

(** ** The properties on concrete repositories *)

(** The six cases, one repository each. *)
Example defaultBaseRev_cases :
  defaultBaseRev featureBranch = "origin/main"
  ∧ defaultBaseRev emptyBranch = "origin/main"
  ∧ defaultBaseRev latestMain = "HEAD^"
  ∧ defaultBaseRev historicMain = "HEAD^"
  ∧ defaultBaseRev mergedBranch = "0ld1"
  ∧ defaultBaseRev noForkPoint = "HEAD^".
Proof. repeat split. Qed.

Lemma checkDefaultRemote_spec_witness :
  checkDefaultRemote "origin" featureBranch = None.
Proof.
  apply (checkDefaultRemote_spec "origin" featureBranch [originRemote]).
  - reflexivity.
  - exists originRemote. split.
    + exists [], []. repeat split. constructor.
    + simpl. apply elem_of_cons. by left.
Defined.

Example checkDefaultRemote_missing_branch :
  checkDefaultRemote "origin" noMainBranch
  = Some (Errorf "remote %q has no default branch %q,branches:%v"
            [ArgString "origin"; ArgString "main"; ArgStrings ["dev"; "release"]]).
Proof. reflexivity. Qed.

Lemma checkRemoteDefaultBranchIsReachable_spec_witness :
  checkRemoteDefaultBranchIsReachable "ErrCurrentHeadIsOutOfDate" featureBranch
  = Done None
      (set_remoteDefaultBranchCommit "c0de" (set_headCommit "f00d" featureBranch)).
Proof.
  apply (checkRemoteDefaultBranchIsReachable_spec "ErrCurrentHeadIsOutOfDate"
           featureBranch "f00d" "c0de" (set_headCommit "f00d" featureBranch)).
  - reflexivity.
  - reflexivity.
  - reflexivity.
Defined.

Example behind_default_branch_is_out_of_date :
  returned (checkRemoteDefaultBranchIsReachable "ErrCurrentHeadIsOutOfDate" behindMain)
  = Some (Some (outOfDateErr "ErrCurrentHeadIsOutOfDate")).
Proof. reflexivity. Qed.

(** The scenarios of [TestCloudListUnhealthy]. *)
Example only_unhealthy_filter_is_permitted :
  (run (localEnv [s1]) (statusFlag "drifted")).1
  = mkRunResult 1 "" "only unhealthy filter allowed".
Proof. reflexivity. Qed.

Example local_repository_is_not_permitted :
  (run (localEnv [s1]) (statusFlag "unhealthy")).1
  = mkRunResult 1 ""
      "unhealthy status filter does not work with filesystem based remotes".
Proof. reflexivity. Qed.

Example no_cloud_stacks_no_status_flag :
  Stdout (run (testEnv [mkStack "s1" "" []; mkStack "s2" "" []] []) noFlags).1
  = printStacks ["s1"; "s2"].
Proof. by vm_compute. Qed.

Example no_cloud_stacks_asking_for_unhealthy :
  (run (testEnv [s1; s2] []) (statusFlag "unhealthy")).1 = mkRunResult 0 "" "".
Proof. by vm_compute. Qed.

Example one_healthy_other_absent :
  (run (testEnv [s1; s2] [s1OK]) (statusFlag "unhealthy")).1 = mkRunResult 0 "" "".
Proof. by vm_compute. Qed.

Example one_unhealthy_but_different_repository :
  (run (testEnv [s1; s2] [s1FailedElsewhere]) (statusFlag "unhealthy")).1
  = mkRunResult 0 "" "".
Proof. by vm_compute. Qed.

Example one_unhealthy_other_absent :
  Stdout (run (testEnv [s1; s2] [s1Failed]) (statusFlag "unhealthy")).1
  = printStacks ["s1"].
Proof. by vm_compute. Qed.

Example one_unhealthy_other_ok :
  Stdout (run (testEnv [s1; s2] [s1Failed; s2OK]) (statusFlag "unhealthy")).1
  = printStacks ["s1"].
Proof. by vm_compute. Qed.

Example no_local_stacks_two_unhealthy :
  (run (testEnv [] [s1Failed; s2Drifted]) (statusFlag "unhealthy")).1
  = mkRunResult 0 "" "".
Proof. by vm_compute. Qed.

Example two_local_stacks_two_unhealthy :
  Stdout (run (testEnv [s1; s2] [s1Failed; s2Drifted]) (statusFlag "unhealthy")).1
  = printStacks ["s1"; "s2"].
Proof. by vm_compute. Qed.

Example stacks_without_id_are_ignored :
  Stdout (run (testEnv [s1; s2; stackWithoutID] [s1Failed; s2Drifted])
            (statusFlag "unhealthy")).1
  = printStacks ["s1"; "s2"].
Proof. by vm_compute. Qed.



Lemma stack_without_metaID_witness :
  (∀ source crit out tr,
     statusFilter crit = Some "unhealthy" →
     listStacks
       (set_statusSource source (testEnv [s1; s2; stackWithoutID] [s1Failed; s2Drifted]))
       crit [] = (inr out, tr) →
     stackWithoutID ∉ out)
  ∧ (∀ source, ∃ out,
       listStacks
         (set_statusSource source (testEnv [s1; s2; stackWithoutID] [s1Failed; s2Drifted]))
         noFlags [] = (inr out, [])
       ∧ stackWithoutID ∈ out).
Proof.
  apply (stack_without_metaID
           (testEnv [s1; s2; stackWithoutID] [s1Failed; s2Drifted]) stackWithoutID).
  - reflexivity.
  - simpl. apply elem_of_cons. right. apply elem_of_cons. right.
    apply elem_of_cons. by left.
Defined.

Lemma only_unhealthy_filter_allowed_witness :
  run (localEnv [s1]) (statusFlag "drifted")
  = (mkRunResult 1 "" "only unhealthy filter allowed", []).
Proof.
  apply (only_unhealthy_filter_allowed (localEnv [s1]) (statusFlag "drifted") "drifted").
  - reflexivity.
  - discriminate.
Defined.


(** ** Script blocks: what is returned when no validator panics *)

Section ScriptResultProperties.

Variable descriptionOK : ast.Attribute → bool.
Variable commandOK : ast.Attribute → bool.
Variable commandsOf : ast.Attribute → option Commands.

Lemma AsError_None (errs : errors.List) : errors.AsError errs = None ↔ errs = [].
Proof. by destruct errs. Qed.

Lemma AppendAll_AsError (errs nested : errors.List) :
  errors.AppendAll errs (errors.AsError nested) = errs ++ nested.
Proof. destruct nested; simpl; [by rewrite app_nil_r|done]. Qed.

(** The loop over the attributes of a job: the errors pile up in order and
    the two flags record a valid [command] and a valid [commands]. *)
Lemma foldl_jobStep st attrs :
  let st' := foldl (jobStep commandOK commandsOf) st attrs in
  jl_errs st' = jl_errs st ++ flat_map (jobAttributeErrors commandOK commandsOf) attrs
  ∧ jl_foundCmd st' = jl_foundCmd st || existsb (validCommand commandOK) attrs
  ∧ jl_foundCmds st' = jl_foundCmds st || existsb (validCommands commandsOf) attrs.
Proof.
  revert st. induction attrs as [|a attrs IH]; intros st; simpl.
  - by rewrite app_nil_r, !orb_false_r.
  - destruct (IH (jobStep commandOK commandsOf st a)) as (-> & -> & ->).
    unfold jobStep, jobAttributeErrors, validCommand, validCommands,
      commandResult, commandsResult, errors.Append.
    destruct (String.eqb_spec (ast.Name a) "command") as [Hc|Hc].
    + assert (String.eqb (ast.Name a) "commands" = false) as ->.
      { rewrite Hc. reflexivity. }
      destruct (commandOK a); simpl.
      * by rewrite orb_true_r.
      * by rewrite <- app_assoc.
    + destruct (String.eqb_spec (ast.Name a) "commands") as [Hcs|Hcs].
      * destruct (commandsOf a) as [cs|]; simpl.
        -- by rewrite orb_true_r.
        -- by rewrite <- app_assoc.
      * simpl. by rewrite <- app_assoc.
Qed.

(** What the loop leaves in the job comes from valid attributes, and a
    part of the job is set only when its flag is. *)
Lemma foldl_jobStep_job st attrs :
  let st' := foldl (jobStep commandOK commandsOf) st attrs in
  (∀ c, job_Command (jl_job st') = Some c →
        job_Command (jl_job st) = Some c
        ∨ (c ∈ attrs ∧ ast.Name c = "command" ∧ commandOK c = true))
  ∧ (∀ cs, job_Commands (jl_job st') = Some cs →
           job_Commands (jl_job st) = Some cs
           ∨ ∃ a, a ∈ attrs ∧ ast.Name a = "commands" ∧ commandsOf a = Some cs)
  ∧ ((is_Some (job_Command (jl_job st)) → jl_foundCmd st = true) →
     is_Some (job_Command (jl_job st')) → jl_foundCmd st' = true)
  ∧ ((is_Some (job_Commands (jl_job st)) → jl_foundCmds st = true) →
     is_Some (job_Commands (jl_job st')) → jl_foundCmds st' = true).
Proof.
  revert st. induction attrs as [|a attrs IH]; intros st; simpl.
  - repeat split; auto.
  - destruct (IH (jobStep commandOK commandsOf st a)) as (IHc & IHcs & IHf & IHfs).
    repeat split.
    + intros c [Hc|(Hin & Hname & Hok)]%IHc.
      * revert Hc. unfold jobStep, commandResult, commandsResult.
        destruct (String.eqb_spec (ast.Name a) "command") as [Ha|Ha].
        -- destruct (commandOK a) eqn:Hok; simpl; [|by left].
           intros [= <-]. right. split; [by left|done].
        -- destruct (String.eqb (ast.Name a) "commands"); [|by left].
           destruct (commandsOf a); simpl; by left.
      * right. split; [by right|done].
    + intros cs [Hcs|(b & Hin & Hname & Hok)]%IHcs.
      * revert Hcs. unfold jobStep, commandResult, commandsResult.
        destruct (String.eqb_spec (ast.Name a) "command") as [Ha|Ha].
        -- destruct (commandOK a); simpl; by left.
        -- destruct (String.eqb_spec (ast.Name a) "commands") as [Has|Has];
             [|by left].
           destruct (commandsOf a) as [cs'|] eqn:Hok; simpl; [|by left].
           intros [= <-]. right. exists a. split; [by left|done].
      * right. exists b. split; [by right|done].
    + intros Hinv. apply IHf.
      unfold jobStep, commandResult, commandsResult.
      destruct (String.eqb (ast.Name a) "command").
      * destruct (commandOK a); simpl; [done|exact Hinv].
      * destruct (String.eqb (ast.Name a) "commands"); [|exact Hinv].
        destruct (commandsOf a); simpl; exact Hinv.
    + intros Hinv. apply IHfs.
      unfold jobStep, commandResult, commandsResult.
      destruct (String.eqb (ast.Name a) "command").
      * destruct (commandOK a); simpl; exact Hinv.
      * destruct (String.eqb (ast.Name a) "commands"); [|exact Hinv].
        destruct (commandsOf a); simpl; [done|exact Hinv].
Qed.

Lemma jobResult_unfold block :
  jobResult commandOK commandsOf block =
    match errors.AsError (jobErrors commandOK commandsOf block) with
    | Some err => (None, Some err)
    | None =>
        (Some (jl_job (foldl (jobStep commandOK commandsOf)
                         (mkJobLoop [] false false (mkScriptJob None None))
                         (ast.Attributes block))),
         None)
    end.
Proof.
  unfold jobResult, jobErrors. cbv zeta.
  destruct (foldl_jobStep (mkJobLoop [] false false (mkScriptJob None None))
              (ast.Attributes block)) as (-> & -> & ->).
  simpl. destruct (_ && _); unfold errors.Append; by rewrite ?app_nil_r.
Qed.

Lemma jobAttributeErrors_nil a :
  jobAttributeErrors commandOK commandsOf a = []
  ↔ (ast.Name a = "command" ∧ commandOK a = true)
    ∨ (ast.Name a = "commands" ∧ is_Some (commandsOf a)).
Proof.
  unfold jobAttributeErrors.
  destruct (String.eqb_spec (ast.Name a) "command") as [Hc|Hc].
  - destruct (commandOK a); split; try done.
    + by left.
    + intros [[_ ?]|[Hcs _]]; [done|]. by rewrite Hc in Hcs.
  - destruct (String.eqb_spec (ast.Name a) "commands") as [Hcs|Hcs].
    + destruct (commandsOf a) as [cs|]; split; try done.
      * intros _. right. split; [done|by eexists].
      * intros [[? _]|[_ [? ?]]]; done.
    + split; [done|]. intros [[? _]|[? _]]; done.
Qed.

Lemma flat_map_nil {A B : Type} (f : A → list B) (l : list A) :
  flat_map f l = [] ↔ ∀ x, x ∈ l → f x = [].
Proof.
  induction l as [|x l IH]; simpl.
  - split; [|done]. by intros _ x ?%elem_of_nil.
  - rewrite app_nil, IH. split.
    + intros [Hx Hl] y [->|Hy]%elem_of_cons; auto.
    + intros Hall. split; [apply Hall; by left|].
      intros y Hy. apply Hall. by right.
Qed.

Lemma existsb_validCommand attrs :
  (∀ a, a ∈ attrs → jobAttributeErrors commandOK commandsOf a = []) →
  existsb (validCommand commandOK) attrs = true
  ↔ ∃ a, a ∈ attrs ∧ ast.Name a = "command".
Proof.
  intros Hall. rewrite existsb_exists. split.
  - intros (a & Hin%list_elem_of_In & [Hname%String.eqb_eq _]%andb_true_iff). eauto.
  - intros (a & Hin & Hname). exists a. split; [by apply list_elem_of_In|].
    unfold validCommand. apply andb_true_iff. split; [by apply String.eqb_eq|].
    destruct (proj1 (jobAttributeErrors_nil a) (Hall a Hin)) as [[_ ?]|[Hcs _]];
      [done|]. by rewrite Hname in Hcs.
Qed.

Lemma existsb_validCommands attrs :
  (∀ a, a ∈ attrs → jobAttributeErrors commandOK commandsOf a = []) →
  existsb (validCommands commandsOf) attrs = true
  ↔ ∃ a, a ∈ attrs ∧ ast.Name a = "commands".
Proof.
  intros Hall. rewrite existsb_exists. split.
  - intros (a & Hin%list_elem_of_In & [Hname%String.eqb_eq _]%andb_true_iff). eauto.
  - intros (a & Hin & Hname). exists a. split; [by apply list_elem_of_In|].
    unfold validCommands. apply andb_true_iff. split; [by apply String.eqb_eq|].
    apply bool_decide_eq_true_2.
    destruct (proj1 (jobAttributeErrors_nil a) (Hall a Hin)) as [[Hc _]|[_ ?]];
      [|done]. by rewrite Hname in Hc.
Qed.

(** [jobResult] accepts a job block iff each of its
    attributes is a valid [command] or a valid [commands] and the block
    does not have both; a block with no attribute is accepted. *)
Lemma jobResult_accepts block :
  is_Some (jobResult commandOK commandsOf block).1
  ↔ (∀ a, a ∈ ast.Attributes block →
          (ast.Name a = "command" ∧ commandOK a = true)
          ∨ (ast.Name a = "commands" ∧ is_Some (commandsOf a)))
    ∧ ¬ ((∃ a, a ∈ ast.Attributes block ∧ ast.Name a = "command")
         ∧ (∃ a, a ∈ ast.Attributes block ∧ ast.Name a = "commands")).
Proof.
  rewrite jobResult_unfold.
  destruct (errors.AsError (jobErrors commandOK commandsOf block)) as [err|] eqn:Herr.
  - assert (jobErrors commandOK commandsOf block ≠ []) as Hne.
    { intros Hnil%AsError_None. congruence. }
    split; [by intros [? ?]|]. intros [Hall Hboth]. destruct Hne.
    assert (∀ a, a ∈ ast.Attributes block →
                 jobAttributeErrors commandOK commandsOf a = []) as Hnil.
    { intros a Ha. by apply jobAttributeErrors_nil, Hall. }
    unfold jobErrors. apply app_nil. split; [by apply flat_map_nil|].
    destruct (existsb (validCommand commandOK) _) eqn:Hc; [|done].
    destruct (existsb (validCommands commandsOf) _) eqn:Hcs; [|done].
    destruct Hboth. split.
    + by apply (existsb_validCommand _ Hnil).
    + by apply (existsb_validCommands _ Hnil).
  - apply AsError_None in Herr. unfold jobErrors in Herr.
    apply app_nil in Herr as [Hattrs Hconflict].
    assert (∀ a, a ∈ ast.Attributes block →
                 jobAttributeErrors commandOK commandsOf a = []) as Hnil.
    { by apply flat_map_nil. }
    split; [|by eexists]. intros _. split.
    + intros a Ha. by apply jobAttributeErrors_nil, Hnil.
    + intros [Hc%(existsb_validCommand _ Hnil) Hcs%(existsb_validCommands _ Hnil)].
      by rewrite Hc, Hcs in Hconflict.
Qed.

(** A job that [jobResult] returns comes without an error
    and never has both [Command] and [Commands]: a [Command] is a [command]
    attribute of the block, [Commands] are parsed from a [commands]
    attribute of the block. *)
Lemma jobResult_exclusive block job err :
  jobResult commandOK commandsOf block = (Some job, err) →
  err = None
  ∧ ¬ (is_Some (job_Command job) ∧ is_Some (job_Commands job))
  ∧ (∀ c, job_Command job = Some c →
          c ∈ ast.Attributes block ∧ ast.Name c = "command" ∧ commandOK c = true)
  ∧ (∀ cs, job_Commands job = Some cs →
           ∃ a, a ∈ ast.Attributes block
                ∧ ast.Name a = "commands" ∧ commandsOf a = Some cs).
Proof.
  rewrite jobResult_unfold.
  destruct (errors.AsError (jobErrors commandOK commandsOf block)) as [e|] eqn:Herr;
    [done|].
  intros [= <- <-]. split; [done|].
  set (init := mkJobLoop [] false false (mkScriptJob None None)).
  destruct (foldl_jobStep_job init (ast.Attributes block))
    as (Hc & Hcs & Hf & Hfs).
  destruct (foldl_jobStep init (ast.Attributes block)) as (_ & Hfound & Hfounds).
  apply AsError_None in Herr. unfold jobErrors in Herr.
  apply app_nil in Herr as [_ Hconflict].
  split; [|split].
  - intros [Hsc Hscs].
    rewrite (Hf ltac:(by intros [? ?]) Hsc) in Hfound.
    rewrite (Hfs ltac:(by intros [? ?]) Hscs) in Hfounds.
    simpl in Hfound, Hfounds. by rewrite <- Hfound, <- Hfounds in Hconflict.
  - intros c [?|?]%Hc; done.
  - intros cs [?|?]%Hcs; done.
Qed.

Lemma scriptAttributeStep_eq errs s a :
  scriptAttributeStep descriptionOK (errs, s) a =
    (errs ++ scriptAttributeErrors descriptionOK a,
     mkScript (script_Labels s)
       (if validDescriptionAttr descriptionOK a then Some a else script_Description s)
       (script_Jobs s)).
Proof.
  unfold scriptAttributeStep, scriptAttributeErrors, descriptionResult,
    validDescriptionAttr, errors.Append.
  destruct (String.eqb (ast.Name a) "description"), (descriptionOK a), s; simpl;
    by rewrite ?app_nil_r.
Qed.

Lemma foldl_scriptAttributeStep errs s attrs :
  foldl (scriptAttributeStep descriptionOK) (errs, s) attrs =
    (errs ++ flat_map (scriptAttributeErrors descriptionOK) attrs,
     mkScript (script_Labels s)
       (match last (filter (λ a, validDescriptionAttr descriptionOK a) attrs) with
        | Some d => Some d
        | None => script_Description s
        end)
       (script_Jobs s)).
Proof.
  revert errs s. induction attrs as [|a attrs IH]; intros errs s;
    [simpl|cbn [foldl flat_map]].
  - rewrite app_nil_r. by destruct s.
  - rewrite scriptAttributeStep_eq, IH, <- app_assoc. simpl.
    destruct (validDescriptionAttr descriptionOK a) eqn:Hvalid.
    + rewrite filter_cons_True by (by apply Is_true_true).
      rewrite last_cons. by destruct (last _).
    + rewrite filter_cons_False; [done|]. intros H%Is_true_true. congruence.
Qed.

Lemma jobResult_errors nestedBlock :
  (jobResult commandOK commandsOf nestedBlock).2
  = errors.AsError (jobErrors commandOK commandsOf nestedBlock).
Proof.
  rewrite jobResult_unfold.
  by destruct (errors.AsError (jobErrors commandOK commandsOf nestedBlock)).
Qed.

Lemma scriptBlockStep_eq errs s nb :
  scriptBlockStep commandOK commandsOf (errs, s) nb =
    (errs ++ scriptBlockErrors commandOK commandsOf nb,
     mkScript (script_Labels s) (script_Description s)
       (script_Jobs s
        ++ (if isJobBlock nb
            then [(jobResult commandOK commandsOf nb).1] else []))).
Proof.
  unfold scriptBlockStep, scriptBlockErrors, isJobBlock, errors.Append.
  destruct (String.eqb (ast.Type_ nb) "job").
  - pose proof (jobResult_errors nb) as Herrs.
    destruct (jobResult commandOK commandsOf nb) as [job err].
    simpl in *. subst err. by rewrite AppendAll_AsError.
  - destruct s. simpl. by rewrite app_nil_r.
Qed.

Lemma foldl_scriptBlockStep errs s blocks :
  foldl (scriptBlockStep commandOK commandsOf) (errs, s) blocks =
    (errs ++ flat_map (scriptBlockErrors commandOK commandsOf) blocks,
     mkScript (script_Labels s) (script_Description s)
       (script_Jobs s
        ++ ((λ nb, (jobResult commandOK commandsOf nb).1)
              <$> filter (λ nb, isJobBlock nb) blocks))).
Proof.
  revert errs s. induction blocks as [|nb blocks IH]; intros errs s;
    [simpl|cbn [foldl flat_map]].
  - rewrite !app_nil_r. by destruct s.
  - rewrite scriptBlockStep_eq, IH. simpl. rewrite <- !app_assoc.
    destruct (isJobBlock nb) eqn:Hjob.
    + by rewrite filter_cons_True by (by apply Is_true_true).
    + rewrite filter_cons_False; [done|].
      intros H%Is_true_true. congruence.
Qed.

(** The errors of [scriptResult] in the order of their detection, and
    the script it builds when there are none. *)
Lemma scriptResult_unfold block :
  scriptResult descriptionOK commandOK commandsOf block =
    match errors.AsError (scriptErrors descriptionOK commandOK commandsOf block) with
    | Some err => (None, Some err)
    | None =>
        (Some (mkScript (ast.Labels block)
                 (last (filter (λ a, validDescriptionAttr descriptionOK a)
                          (ast.Attributes block)))
                 ((λ nb, (jobResult commandOK commandsOf nb).1)
                    <$> filter (λ nb, isJobBlock nb) (ast.Blocks block))),
         None)
    end.
Proof.
  unfold scriptResult, scriptErrors, labelErrors, errors.Append. cbv zeta.
  rewrite foldl_scriptAttributeStep, foldl_scriptBlockStep. simpl.
  assert (∀ (c : bool) (l : errors.List) (e : errors.Error),
            (if c then l ++ [e] else l) = l ++ (if c then [e] else [])) as Hif.
  { intros [] l e; [done|by rewrite app_nil_r]. }
  rewrite !Hif, <- !app_assoc.
  destruct (last (filter _ (ast.Attributes block))); by destruct (_ ++ _).
Qed.

Lemma scriptAttributeErrors_nil a :
  scriptAttributeErrors descriptionOK a = []
  ↔ ast.Name a = "description" ∧ descriptionOK a = true.
Proof.
  unfold scriptAttributeErrors.
  destruct (String.eqb_spec (ast.Name a) "description") as [Hd|Hd].
  - destruct (descriptionOK a); split; try done. by intros [_ ?].
  - split; [done|]. by intros [? _].
Qed.

Lemma jobErrors_nil nb :
  jobErrors commandOK commandsOf nb = []
  ↔ is_Some (jobResult commandOK commandsOf nb).1.
Proof.
  rewrite jobResult_unfold.
  destruct (jobErrors commandOK commandsOf nb); simpl; split;
    first [done | by eexists | by intros [? ?]].
Qed.

Lemma scriptBlockErrors_nil nb :
  scriptBlockErrors commandOK commandsOf nb = []
  ↔ ast.Type_ nb = "job"
    ∧ is_Some (jobResult commandOK commandsOf nb).1.
Proof.
  unfold scriptBlockErrors.
  destruct (String.eqb_spec (ast.Type_ nb) "job") as [Hj|Hj].
  - rewrite jobErrors_nil. split; [done|by intros [_ ?]].
  - split; [done|]. by intros [? _].
Qed.

Lemma scriptErrors_nil block :
  scriptErrors descriptionOK commandOK commandsOf block = []
  ↔ length (ast.Labels block) = 2
    ∧ nth 0 (ast.Labels block) "" ≠ ""
    ∧ ast.Attributes block ≠ []
    ∧ (∀ a, a ∈ ast.Attributes block →
            ast.Name a = "description" ∧ descriptionOK a = true)
    ∧ ast.Blocks block ≠ []
    ∧ (∀ nb, nb ∈ ast.Blocks block →
             ast.Type_ nb = "job"
             ∧ is_Some (jobResult commandOK commandsOf nb).1).
Proof.
  unfold scriptErrors, labelErrors, errors.List. rewrite !app_nil, !flat_map_nil.
  assert (length (ast.Labels block) = 2 ∧ nth 0 (ast.Labels block) "" ≠ ""
          ↔ (if negb (Nat.eqb (length (ast.Labels block)) 2)
             then [errors.E ErrScriptTwoLabels (ast.OpenBraceRange block) None]
             else if String.eqb (nth 0 (ast.Labels block) "") ""
                  then [errors.E ErrScriptEmptyLabel (ast.OpenBraceRange block) None]
                  else []) = []) as <-.
  { destruct (Nat.eqb_spec (length (ast.Labels block)) 2) as [Hl|Hl]; simpl.
    - destruct (String.eqb_spec (nth 0 (ast.Labels block) "") ""); split; try done.
      by intros [_ ?].
    - split; [by intros [? _]|done]. }
  assert (ast.Attributes block ≠ []
          ↔ (if Nat.eqb (length (ast.Attributes block)) 0
             then [errors.E ErrScriptNoAttrs (ast.OpenBraceRange block) None]
             else []) = []) as <-.
  { by destruct (ast.Attributes block). }
  assert (ast.Blocks block ≠ []
          ↔ (if Nat.ltb (length (ast.Blocks block)) 1
             then [errors.E ErrScriptNoBlocks (ast.TypeRange block) None]
             else []) = []) as <-.
  { by destruct (ast.Blocks block). }
  assert ((∀ a, a ∈ ast.Attributes block →
                scriptAttributeErrors descriptionOK a = [])
          ↔ (∀ a, a ∈ ast.Attributes block →
                  ast.Name a = "description" ∧ descriptionOK a = true)) as ->.
  { split; intros H a Ha; by apply scriptAttributeErrors_nil, H. }
  assert ((∀ nb, nb ∈ ast.Blocks block →
                 scriptBlockErrors commandOK commandsOf nb = [])
          ↔ (∀ nb, nb ∈ ast.Blocks block →
                   ast.Type_ nb = "job"
                   ∧ is_Some (jobResult commandOK commandsOf nb).1)) as ->.
  { split; intros H nb Hnb; by apply scriptBlockErrors_nil, H. }
  tauto.
Qed.

(** [scriptResult] accepts a script block iff it has exactly two
    labels of which the first is not empty, at least one attribute, each
    attribute a valid [description], at least one nested block, and each
    nested block a [job] that [jobResult] accepts. *)
Lemma scriptResult_accepts block :
  is_Some (scriptResult descriptionOK commandOK commandsOf block).1
  ↔ length (ast.Labels block) = 2
    ∧ nth 0 (ast.Labels block) "" ≠ ""
    ∧ ast.Attributes block ≠ []
    ∧ (∀ a, a ∈ ast.Attributes block →
            ast.Name a = "description" ∧ descriptionOK a = true)
    ∧ ast.Blocks block ≠ []
    ∧ (∀ nb, nb ∈ ast.Blocks block →
             ast.Type_ nb = "job"
             ∧ is_Some (jobResult commandOK commandsOf nb).1).
Proof.
  rewrite <- scriptErrors_nil, scriptResult_unfold.
  destruct (scriptErrors descriptionOK commandOK commandsOf block); simpl.
  - split; [done|by eexists].
  - split; [by intros [? ?]|done].
Qed.

Lemma filter_all {A : Type} (P : A → Prop) `{!∀ x, Decision (P x)} (l : list A) :
  (∀ x, x ∈ l → P x) → filter P l = l.
Proof.
  induction l as [|x l IH]; intros Hall; [done|].
  rewrite filter_cons_True by (apply Hall; by left).
  f_equal. apply IH. intros y Hy. apply Hall. by right.
Qed.

(** A script that [scriptResult] returns comes without an error,
    carries the labels of the block, has the last attribute of the block as
    its description, and has one job per nested block, in order, none of
    them nil. *)
Lemma scriptResult_contents block s err :
  scriptResult descriptionOK commandOK commandsOf block = (Some s, err) →
  err = None
  ∧ script_Labels s = ast.Labels block
  ∧ script_Description s = last (ast.Attributes block)
  ∧ is_Some (script_Description s)
  ∧ script_Jobs s
    = (λ nb, (jobResult commandOK commandsOf nb).1) <$> ast.Blocks block
  ∧ length (script_Jobs s) = length (ast.Blocks block)
  ∧ (∀ job, job ∈ script_Jobs s → is_Some job).
Proof.
  rewrite scriptResult_unfold.
  destruct (errors.AsError _) as [e|] eqn:Herr; [done|].
  apply AsError_None, scriptErrors_nil in Herr
    as (_ & _ & Hattrs & Hdesc & _ & Hjobs).
  intros [= <- <-].
  rewrite (filter_all _ (ast.Attributes block)).
  2:{ intros a [Hname Hok]%Hdesc. apply Is_true_true. unfold validDescriptionAttr.
      apply andb_true_iff. split; [by apply String.eqb_eq|done]. }
  rewrite (filter_all _ (ast.Blocks block)).
  2:{ intros nb [Htype _]%Hjobs. apply Is_true_true. by apply String.eqb_eq. }
  simpl. repeat split.
  - by apply last_is_Some.
  - by rewrite length_fmap.
  - intros job (nb & -> & Hnb)%list_elem_of_fmap. by apply Hjobs.
Qed.

Lemma scriptErrors_reported block e :
  e ∈ scriptErrors descriptionOK commandOK commandsOf block →
  ∃ errs,
    scriptResult descriptionOK commandOK commandsOf block = (None, Some errs)
    ∧ e ∈ errs.
Proof.
  intros He. rewrite scriptResult_unfold.
  destruct (scriptErrors descriptionOK commandOK commandsOf block) as [|e' errs] eqn:Herrs.
  - by apply elem_of_nil in He.
  - simpl. eauto.
Qed.

Lemma elem_of_flat_map {A B : Type} (f : A → list B) (l : list A) (x : A) (y : B) :
  x ∈ l → y ∈ f x → y ∈ flat_map f l.
Proof.
  intros Hx Hy. apply list_elem_of_In, in_flat_map. exists x.
  split; by apply list_elem_of_In.
Qed.

(** Each attribute of a script block that is not a valid description
    makes [scriptResult] fail with an error of its own at the range of
    its name: invalid description for a [description], unknown attribute
    otherwise. *)
Lemma scriptResult_reports_attribute block a :
  a ∈ ast.Attributes block →
  validDescriptionAttr descriptionOK a = false →
  ∃ errs,
    scriptResult descriptionOK commandOK commandsOf block = (None, Some errs)
    ∧ errors.E (if String.eqb (ast.Name a) "description"
                then ErrScriptInvalidDesc else ErrScriptUnknownAttr)
        (ast.NameRange a) None ∈ errs.
Proof.
  intros Ha Hinvalid. apply scriptErrors_reported. unfold scriptErrors.
  do 2 (apply elem_of_app; right). apply elem_of_app; left.
  apply (elem_of_flat_map _ _ a); [done|].
  unfold scriptAttributeErrors. unfold validDescriptionAttr in Hinvalid.
  destruct (String.eqb (ast.Name a) "description"); simpl in *.
  - rewrite Hinvalid. by apply list_elem_of_singleton.
  - by apply list_elem_of_singleton.
Qed.

(** Each nested block of a script block that is not a [job] makes
    [scriptResult] fail with an unknown-block error naming its type,
    and each error of a nested [job] block is an error of the script: the
    errors of the jobs are reported one by one. *)
Lemma scriptResult_reports_block block nb :
  nb ∈ ast.Blocks block →
  (ast.Type_ nb ≠ "job" →
   ∃ errs,
     scriptResult descriptionOK commandOK commandsOf block = (None, Some errs)
     ∧ errors.E ErrScriptUnknownBlock (ast.TypeRange nb) (Some (ast.Type_ nb)) ∈ errs)
  ∧ (ast.Type_ nb = "job" →
     ∀ nested e,
       (jobResult commandOK commandsOf nb).2 = Some nested →
       e ∈ nested →
       ∃ errs,
         scriptResult descriptionOK commandOK commandsOf block = (None, Some errs)
         ∧ e ∈ errs).
Proof.
  intros Hnb. split.
  - intros Htype%String.eqb_neq. apply scriptErrors_reported. unfold scriptErrors.
    do 4 (apply elem_of_app; right).
    apply (elem_of_flat_map _ _ nb); [done|].
    unfold scriptBlockErrors. rewrite Htype. by apply list_elem_of_singleton.
  - intros Htype%String.eqb_eq nested e Hnested He.
    apply scriptErrors_reported. unfold scriptErrors.
    do 4 (apply elem_of_app; right).
    apply (elem_of_flat_map _ _ nb); [done|].
    unfold scriptBlockErrors. rewrite Htype.
    rewrite jobResult_errors in Hnested.
    destruct (jobErrors commandOK commandsOf nb); simpl in Hnested; [done|].
    by injection Hnested as <-.
Qed.

(** [jobResult] reports the conflict of [command] and
    [commands] iff the block has a valid [command] and a valid [commands]:
    next to an invalid one, no conflict is reported. *)
Lemma jobResult_conflict_iff block :
  (∃ errs,
     (jobResult commandOK commandsOf block).2 = Some errs
     ∧ errors.E ErrScriptCmdConflict (ast.TypeRange block) None ∈ errs)
  ↔ (∃ a, a ∈ ast.Attributes block ∧ ast.Name a = "command" ∧ commandOK a = true)
    ∧ (∃ a, a ∈ ast.Attributes block
            ∧ ast.Name a = "commands" ∧ is_Some (commandsOf a)).
Proof.
  rewrite jobResult_errors.
  assert (existsb (validCommand commandOK) (ast.Attributes block) = true
          ↔ ∃ a, a ∈ ast.Attributes block
                 ∧ ast.Name a = "command" ∧ commandOK a = true) as Hc.
  { rewrite existsb_exists. unfold validCommand. split.
    - intros (a & Ha%list_elem_of_In & [?%String.eqb_eq ?]%andb_true_iff). eauto.
    - intros (a & Ha%list_elem_of_In & ?%String.eqb_eq & ?). exists a.
      split; [done|]. by apply andb_true_iff. }
  assert (existsb (validCommands commandsOf) (ast.Attributes block) = true
          ↔ ∃ a, a ∈ ast.Attributes block
                 ∧ ast.Name a = "commands" ∧ is_Some (commandsOf a)) as Hcs.
  { rewrite existsb_exists. unfold validCommands. split.
    - intros (a & Ha%list_elem_of_In
                & [?%String.eqb_eq ?%bool_decide_eq_true_1]%andb_true_iff). eauto.
    - intros (a & Ha%list_elem_of_In & ?%String.eqb_eq & ?). exists a.
      split; [done|]. apply andb_true_iff. split; [done|].
      by apply bool_decide_eq_true_2. }
  rewrite <- Hc, <- Hcs. unfold jobErrors. split.
  - intros (errs & Herrs & Hin).
    assert (errors.E ErrScriptCmdConflict (ast.TypeRange block) None
            ∈ flat_map (jobAttributeErrors commandOK commandsOf) (ast.Attributes block)
              ++ (if existsb (validCommand commandOK) (ast.Attributes block)
                     && existsb (validCommands commandsOf) (ast.Attributes block)
                  then [errors.E ErrScriptCmdConflict (ast.TypeRange block) None]
                  else [])) as Hin'.
    { destruct (_ ++ _); simpl in Herrs; [done|]. by injection Herrs as <-. }
    apply elem_of_app in Hin' as [Hattr|Hconflict].
    + apply list_elem_of_In, in_flat_map in Hattr as (a & _ & Ha).
      unfold jobAttributeErrors in Ha.
      destruct (String.eqb (ast.Name a) "command").
      { destruct (commandOK a); [done|]. by destruct Ha as [[=]|[]]. }
      destruct (String.eqb (ast.Name a) "commands").
      { destruct (commandsOf a); [done|]. by destruct Ha as [[=]|[]]. }
      by destruct Ha as [[=]|[]].
    + destruct (existsb (validCommand commandOK) _); [|by apply elem_of_nil in Hconflict].
      destruct (existsb (validCommands commandsOf) _);
        [done|by apply elem_of_nil in Hconflict].
  - intros [-> ->]. simpl.
    exists (flat_map (jobAttributeErrors commandOK commandsOf) (ast.Attributes block)
            ++ [errors.E ErrScriptCmdConflict (ast.TypeRange block) None]).
    split.
    + by destruct (flat_map _ _).
    + apply elem_of_app. right. by apply list_elem_of_singleton.
Qed.

End ScriptResultProperties.

(** ** Script blocks *)

Section ScriptProperties.

Variable ValueAsStringList : cty.Value → option (list string).

Lemma rangeLoop_foldl {A B : Type} (body : A → B → go A) (panics : B → bool)
    (step : A → B → A) :
  (∀ st x, body st x = if panics x then Panics else Returns (step st x)) →
  ∀ st l,
    rangeLoop body st l = if existsb panics l then Panics else Returns (foldl step st l).
Proof.
  intros Hbody st l. revert st. induction l as [|x l IH]; intros st; simpl; [done|].
  rewrite Hbody. destruct (panics x); simpl; [done|]. apply IH.
Qed.

(** What each validator returns, and when it panics. *)
Lemma validateCommand_returns a :
  validateCommand ValueAsStringList a
  = Returns (if returnsCommand ValueAsStringList a then Some a else None).
Proof.
  unfold returnsCommand, validateCommand. cbv zeta. by destruct (_ || _).
Qed.

Lemma validateCommands_returns a :
  validateCommands ValueAsStringList a
  = if bool_decide (cty.AsValueSlice (ast.Value (ast.Expr a)) = None)
    then Panics else Returns (returnedCommands ValueAsStringList a).
Proof.
  unfold returnedCommands, validateCommands. cbv zeta.
  destruct (cty.AsValueSlice (ast.Value (ast.Expr a))) as [valSlice|]; simpl; [|done].
  by destruct (_ || _).
Qed.

Lemma validateDescription_returns a :
  validateDescription a
  = if negb (ast.HasErrors (ast.Expr a))
       && bool_decide (cty.AsString (ast.Value (ast.Expr a)) = None)
    then Panics else Returns (if returnsDescription a then Some a else None).
Proof.
  unfold returnsDescription, validateDescription. cbv zeta.
  destruct (ast.HasErrors (ast.Expr a)); simpl; [done|].
  destruct (cty.AsString (ast.Value (ast.Expr a))) as [s|]; simpl; [|done].
  by destruct (String.eqb s "").
Qed.

Lemma returnsCommand_true a :
  returnsCommand ValueAsStringList a = true
  ↔ validateCommand ValueAsStringList a = Returns (Some a).
Proof.
  rewrite validateCommand_returns.
  destruct (returnsCommand ValueAsStringList a); split; done.
Qed.

Lemma returnedCommands_Some a cs :
  returnedCommands ValueAsStringList a = Some cs
  ↔ validateCommands ValueAsStringList a = Returns (Some cs).
Proof.
  unfold returnedCommands.
  destruct (validateCommands ValueAsStringList a) as [r|]; split; try done.
  - by intros ->.
  - by intros [= ->].
Qed.

Lemma returnsDescription_true a :
  returnsDescription a = true ↔ validateDescription a = Returns (Some a).
Proof.
  unfold returnsDescription, validateDescription. cbv zeta.
  destruct (ast.HasErrors (ast.Expr a)); [split; done|].
  destruct (cty.AsString (ast.Value (ast.Expr a))) as [s|]; [|split; done].
  destruct (String.eqb s ""); split; done.
Qed.

(** The steps of the loops: they panic where a validator does, and
    otherwise do what the validators' results say. *)
Lemma jobAttribute_eq st a :
  jobAttribute ValueAsStringList st a
  = if jobAttributePanics a then Panics
    else Returns (jobStep (returnsCommand ValueAsStringList)
                    (returnedCommands ValueAsStringList) st a).
Proof.
  unfold jobAttribute, jobStep, commandResult, commandsResult, jobAttributePanics.
  destruct (String.eqb (ast.Name a) "command"); simpl.
  - rewrite validateCommand_returns. simpl.
    by destruct (returnsCommand ValueAsStringList a).
  - destruct (String.eqb (ast.Name a) "commands"); simpl; [|done].
    rewrite validateCommands_returns.
    destruct (bool_decide _); simpl; [done|].
    by destruct (returnedCommands ValueAsStringList a).
Qed.

Lemma validateScriptJobBlock_eq block :
  validateScriptJobBlock ValueAsStringList block
  = if jobPanics block then Panics
    else Returns (jobResult (returnsCommand ValueAsStringList)
                    (returnedCommands ValueAsStringList) block).
Proof.
  unfold validateScriptJobBlock, jobResult, jobPanics.
  rewrite (rangeLoop_foldl _ _ _ jobAttribute_eq).
  destruct (existsb jobAttributePanics (ast.Attributes block)); simpl; [done|].
  by destruct (errors.AsError _).
Qed.

Lemma scriptAttribute_eq st a :
  scriptAttribute st a
  = if scriptAttributePanics a then Panics
    else Returns (scriptAttributeStep returnsDescription st a).
Proof.
  unfold scriptAttribute, scriptAttributeStep, descriptionResult, scriptAttributePanics.
  destruct st as [errs parsedScript].
  destruct (String.eqb (ast.Name a) "description"); simpl; [|done].
  rewrite validateDescription_returns.
  destruct (negb _ && _); simpl; [done|].
  by destruct (returnsDescription a).
Qed.

Lemma scriptBlock_eq st nb :
  scriptBlock ValueAsStringList st nb
  = if String.eqb (ast.Type_ nb) "job" && jobPanics nb then Panics
    else Returns (scriptBlockStep (returnsCommand ValueAsStringList)
                    (returnedCommands ValueAsStringList) st nb).
Proof.
  unfold scriptBlock, scriptBlockStep. destruct st as [errs parsedScript].
  destruct (String.eqb (ast.Type_ nb) "job"); simpl; [|done].
  rewrite validateScriptJobBlock_eq.
  destruct (jobPanics nb); simpl; [done|].
  by destruct (jobResult _ _ nb).
Qed.

Lemma parseScriptBlock_eq block :
  parseScriptBlock ValueAsStringList block
  = if scriptPanics block then Panics
    else Returns (scriptResult returnsDescription
                    (returnsCommand ValueAsStringList)
                    (returnedCommands ValueAsStringList) block).
Proof.
  unfold parseScriptBlock, scriptResult, scriptPanics. cbv zeta.
  rewrite (rangeLoop_foldl _ _ _ scriptAttribute_eq).
  destruct (existsb scriptAttributePanics (ast.Attributes block)); simpl; [done|].
  destruct (foldl _ _ (ast.Attributes block)) as [errs parsedScript]. simpl.
  rewrite (rangeLoop_foldl _ _ _ scriptBlock_eq).
  destruct (existsb _ (ast.Blocks block)); simpl; [done|].
  destruct (foldl _ _ (ast.Blocks block)) as [errs' parsedScript']. simpl.
  by destruct (errors.AsError errs').
Qed.

(** Where the panics come from. *)
Lemma jobPanics_true block :
  jobPanics block = true →
  ∃ a, a ∈ ast.Attributes block
       ∧ ast.Name a = "commands"
       ∧ validateCommands ValueAsStringList a = Panics.
Proof.
  unfold jobPanics. intros (a & Ha%list_elem_of_In & Hp)%existsb_exists.
  unfold jobAttributePanics in Hp.
  apply andb_true_iff in Hp as [[_ Hname%String.eqb_eq]%andb_true_iff Hval].
  exists a. split; [done|]. split; [done|].
  by rewrite validateCommands_returns, Hval.
Qed.

Lemma jobPanics_intro block a :
  a ∈ ast.Attributes block →
  ast.Name a = "commands" →
  validateCommands ValueAsStringList a = Panics →
  jobPanics block = true.
Proof.
  intros Ha Hname Hp. unfold jobPanics. apply existsb_exists. exists a.
  split; [by apply list_elem_of_In|].
  unfold jobAttributePanics. rewrite Hname. simpl.
  rewrite validateCommands_returns in Hp. by destruct (bool_decide _).
Qed.

Lemma scriptPanics_false_attribute block a :
  scriptPanics block = false →
  a ∈ ast.Attributes block →
  scriptAttributePanics a = false.
Proof.
  unfold scriptPanics. intros [Hattrs _]%orb_false_iff Ha.
  destruct (scriptAttributePanics a) eqn:Hp; [|done].
  rewrite <- Hattrs. symmetry. apply existsb_exists. exists a.
  split; [by apply list_elem_of_In|done].
Qed.

Lemma scriptPanics_false_job block nb :
  scriptPanics block = false →
  nb ∈ ast.Blocks block →
  ast.Type_ nb = "job" →
  jobPanics nb = false.
Proof.
  unfold scriptPanics. intros [_ Hblocks]%orb_false_iff Hnb Htype.
  destruct (jobPanics nb) eqn:Hp; [|done].
  rewrite <- Hblocks. symmetry. apply existsb_exists. exists nb.
  split; [by apply list_elem_of_In|]. by rewrite Htype, Hp.
Qed.

Lemma scriptPanics_true block :
  scriptPanics block = true →
  (∃ a, a ∈ ast.Attributes block
        ∧ ast.Name a = "description" ∧ validateDescription a = Panics)
  ∨ (∃ nb, nb ∈ ast.Blocks block
           ∧ ast.Type_ nb = "job"
           ∧ validateScriptJobBlock ValueAsStringList nb = Panics).
Proof.
  unfold scriptPanics.
  intros [(a & Ha%list_elem_of_In & Hp)%existsb_exists
         |(nb & Hnb%list_elem_of_In & Hp)%existsb_exists]%orb_true_iff.
  - left. exists a. split; [done|]. unfold scriptAttributePanics in Hp.
    apply andb_true_iff in Hp as [[Hname%String.eqb_eq Herr]%andb_true_iff Hval].
    split; [done|]. by rewrite validateDescription_returns, Herr, Hval.
  - right. exists nb. split; [done|].
    apply andb_true_iff in Hp as [Htype%String.eqb_eq Hp].
    split; [done|]. by rewrite validateScriptJobBlock_eq, Hp.
Qed.

(** A job block or a script block panics exactly where the loops meet a
    validator that does. *)
Lemma validateScriptJobBlock_panics block :
  validateScriptJobBlock ValueAsStringList block = Panics
  ↔ ∃ a, a ∈ ast.Attributes block
         ∧ ast.Name a = "commands"
         ∧ validateCommands ValueAsStringList a = Panics.
Proof.
  rewrite validateScriptJobBlock_eq. split.
  - destruct (jobPanics block) eqn:Hp; [|done]. intros _. by apply jobPanics_true.
  - intros (a & Ha & Hname & Hp). by rewrite (jobPanics_intro block a).
Qed.

Lemma parseScriptBlock_panics block :
  parseScriptBlock ValueAsStringList block = Panics ↔ scriptPanics block = true.
Proof.
  rewrite parseScriptBlock_eq. by destruct (scriptPanics block).
Qed.

Lemma valid_job_attribute a :
  (ast.Name a = "command" ∧ returnsCommand ValueAsStringList a = true)
  ∨ (ast.Name a = "commands" ∧ is_Some (returnedCommands ValueAsStringList a))
  ↔ (ast.Name a = "command"
     ∧ validateCommand ValueAsStringList a = Returns (Some a))
    ∨ (ast.Name a = "commands"
       ∧ ∃ cs, validateCommands ValueAsStringList a = Returns (Some cs)).
Proof.
  rewrite returnsCommand_true. unfold is_Some.
  by setoid_rewrite returnedCommands_Some.
Qed.

Lemma jobResult_accepted_errors commandOK commandsOf block :
  is_Some (jobResult commandOK commandsOf block).1 →
  (jobResult commandOK commandsOf block).2 = None.
Proof.
  rewrite jobResult_unfold.
  destruct (errors.AsError _); simpl; [by intros [? ?]|done].
Qed.

Lemma jobErrors_reported commandOK commandsOf block e :
  e ∈ jobErrors commandOK commandsOf block →
  ∃ errs,
    jobResult commandOK commandsOf block = (None, Some errs) ∧ e ∈ errs.
Proof.
  intros He. rewrite jobResult_unfold.
  destruct (jobErrors commandOK commandsOf block) as [|e' errs] eqn:Herrs.
  - by apply elem_of_nil in He.
  - simpl. eauto.
Qed.

(** X1. [validateScriptJobBlock] returns a job iff every attribute of the
    block is a [command] that [validateCommand] returns or a [commands]
    for which [validateCommands] returns a list, and the block does not
    hold both a [command] and a [commands] attribute: an empty block is
    accepted, and a block with an attribute on which [validateCommands]
    panics returns nothing. *)
Theorem validateScriptJobBlock_accepts block :
  (∃ job err,
     validateScriptJobBlock ValueAsStringList block = Returns (Some job, err))
  ↔ (∀ a, a ∈ ast.Attributes block →
          (ast.Name a = "command"
           ∧ validateCommand ValueAsStringList a = Returns (Some a))
          ∨ (ast.Name a = "commands"
             ∧ ∃ cs, validateCommands ValueAsStringList a = Returns (Some cs)))
    ∧ ¬ ((∃ a, a ∈ ast.Attributes block ∧ ast.Name a = "command")
         ∧ (∃ a, a ∈ ast.Attributes block ∧ ast.Name a = "commands")).
Proof.
  rewrite validateScriptJobBlock_eq. destruct (jobPanics block) eqn:Hp.
  - split; [by intros (? & ? & ?)|]. intros [Hall _].
    apply jobPanics_true in Hp as (a & Ha & Hname & Hp).
    destruct (Hall a Ha) as [[Hn _]|[_ [cs Hcs]]]; congruence.
  - pose proof (jobResult_accepts (returnsCommand ValueAsStringList)
                  (returnedCommands ValueAsStringList) block) as Hacc.
    split.
    + intros (job & err & [= Hres]).
      destruct Hacc as [Hacc _]. destruct Hacc as [Hall Hno].
      { rewrite Hres. simpl. eauto. }
      split; [|done]. intros a Ha. by apply valid_job_attribute, Hall.
    + intros [Hall Hno]. destruct Hacc as [_ Hacc]. destruct Hacc as [job Hjob].
      { split; [|done]. intros a Ha. by apply valid_job_attribute, Hall. }
      destruct (jobResult _ _ block) as [r err]. simpl in Hjob. subst r. eauto.
Qed.

(** X2. A job that [validateScriptJobBlock] returns comes without an
    error and never holds both a command and a list of commands; its
    command is an attribute of the block named [command] that
    [validateCommand] returns, and its commands are what
    [validateCommands] returns for an attribute named [commands]. *)
Theorem accepted_job_is_exclusive block job err :
  validateScriptJobBlock ValueAsStringList block = Returns (Some job, err) →
  err = None
  ∧ ¬ (is_Some (job_Command job) ∧ is_Some (job_Commands job))
  ∧ (∀ c, job_Command job = Some c →
          c ∈ ast.Attributes block
          ∧ ast.Name c = "command"
          ∧ validateCommand ValueAsStringList c = Returns (Some c))
  ∧ (∀ cs, job_Commands job = Some cs →
           ∃ a, a ∈ ast.Attributes block
                ∧ ast.Name a = "commands"
                ∧ validateCommands ValueAsStringList a = Returns (Some cs)).
Proof.
  rewrite validateScriptJobBlock_eq. destruct (jobPanics block); [done|].
  intros [= Hres].
  destruct (jobResult_exclusive _ _ _ _ _ Hres) as (Herr & Hex & Hcmd & Hcmds).
  split; [done|]. split; [done|]. split.
  - intros c Hc. destruct (Hcmd c Hc) as (? & ? & ?%returnsCommand_true). done.
  - intros cs Hcs. destruct (Hcmds cs Hcs) as (a & ? & ? & ?%returnedCommands_Some).
    eauto.
Qed.

(** X3. [parseScriptBlock] returns a script iff the block has exactly two
    labels, the first of them not empty, at least one attribute, all of
    its attributes being [description]s that [validateDescription]
    returns, and at least one nested block, all of them [job] blocks for
    which [validateScriptJobBlock] returns a job. *)
Theorem parseScriptBlock_accepts block :
  (∃ s err, parseScriptBlock ValueAsStringList block = Returns (Some s, err))
  ↔ length (ast.Labels block) = 2
    ∧ nth 0 (ast.Labels block) "" ≠ ""
    ∧ ast.Attributes block ≠ []
    ∧ (∀ a, a ∈ ast.Attributes block →
            ast.Name a = "description"
            ∧ validateDescription a = Returns (Some a))
    ∧ ast.Blocks block ≠ []
    ∧ (∀ nb, nb ∈ ast.Blocks block →
             ast.Type_ nb = "job"
             ∧ ∃ job err,
                 validateScriptJobBlock ValueAsStringList nb
                 = Returns (Some job, err)).
Proof.
  rewrite parseScriptBlock_eq. destruct (scriptPanics block) eqn:Hp.
  - split; [by intros (? & ? & ?)|].
    intros (_ & _ & _ & Hattrs & _ & Hblocks).
    apply scriptPanics_true in Hp as [(a & Ha & _ & Hpanics)|(nb & Hnb & _ & Hpanics)].
    + destruct (Hattrs a Ha) as [_ Hret]. congruence.
    + destruct (Hblocks nb Hnb) as [_ (job & err & Hret)]. congruence.
  - pose proof (scriptResult_accepts returnsDescription
                  (returnsCommand ValueAsStringList)
                  (returnedCommands ValueAsStringList) block) as Hacc.
    split.
    + intros (s & err & [= Hres]).
      destruct Hacc as [Hacc _].
      destruct Hacc as (Hlen & Hlabel & Hne & Hattrs & Hnb & Hblocks).
      { rewrite Hres. simpl. eauto. }
      repeat (split; [done|]). split; [|split; [done|]].
      * intros a Ha. destruct (Hattrs a Ha) as [? ?%returnsDescription_true]. done.
      * intros nb Hin. destruct (Hblocks nb Hin) as [Htype [job Hjob]].
        split; [done|].
        rewrite validateScriptJobBlock_eq, (scriptPanics_false_job block nb) by done.
        destruct (jobResult _ _ nb) as [r err']. simpl in Hjob. subst r. eauto.
    + intros (Hlen & Hlabel & Hne & Hattrs & Hnb & Hblocks).
      destruct Hacc as [_ Hacc]. destruct Hacc as [s Hs].
      { repeat (split; [done|]). split; [|split; [done|]].
        - intros a Ha. destruct (Hattrs a Ha) as [? ?%returnsDescription_true]. done.
        - intros nb Hin. destruct (Hblocks nb Hin) as [Htype (job & err & Hjob)].
          split; [done|]. rewrite validateScriptJobBlock_eq in Hjob.
          destruct (jobPanics nb); [done|]. injection Hjob as Hjob.
          rewrite Hjob. simpl. eauto. }
      destruct (scriptResult _ _ _ block) as [r err]. simpl in Hs. subst r. eauto.
Qed.

(** X4. A script that [parseScriptBlock] returns comes without an error;
    it carries the labels of the block, its description is the last
    attribute of the block, and its jobs are, in the order of the nested
    blocks, the jobs that [validateScriptJobBlock] returns for them, each
    without an error: one job per nested block, none of them missing. *)
Theorem accepted_script_contents block s err :
  parseScriptBlock ValueAsStringList block = Returns (Some s, err) →
  err = None
  ∧ script_Labels s = ast.Labels block
  ∧ script_Description s = last (ast.Attributes block)
  ∧ is_Some (script_Description s)
  ∧ (λ job, Returns (job, None)) <$> script_Jobs s
    = validateScriptJobBlock ValueAsStringList <$> ast.Blocks block
  ∧ length (script_Jobs s) = length (ast.Blocks block)
  ∧ (∀ job, job ∈ script_Jobs s → is_Some job).
Proof.
  rewrite parseScriptBlock_eq. destruct (scriptPanics block) eqn:Hp; [done|].
  intros [= Hres].
  destruct (scriptResult_contents _ _ _ _ _ _ Hres)
    as (Herr & Hlabels & Hdesc & Hsome & Hjobs & Hlen & Hall).
  repeat (split; [done|]). split; [|done].
  destruct (scriptResult_accepts returnsDescription
              (returnsCommand ValueAsStringList)
              (returnedCommands ValueAsStringList) block) as [Hacc _].
  destruct Hacc as (_ & _ & _ & _ & _ & Hblocks).
  { rewrite Hres. simpl. eauto. }
  rewrite Hjobs, <- list_fmap_compose. apply Forall_fmap_ext_1, Forall_forall.
  intros nb Hnb. destruct (Hblocks nb Hnb) as [Htype Hjob]. simpl.
  rewrite validateScriptJobBlock_eq, (scriptPanics_false_job block nb) by done.
  apply jobResult_accepted_errors in Hjob.
  destruct (jobResult _ _ nb) as [r err']. simpl in *. by subst err'.
Qed.

(** X5. In a script block on which no validator panics, each attribute
    that is not a [description] that [validateDescription] returns makes
    [parseScriptBlock] return no script and a list of errors that holds
    an error of its own at the range of its name: invalid description for
    a [description], unknown attribute otherwise. *)
Theorem invalid_attribute_is_reported block a :
  scriptPanics block = false →
  a ∈ ast.Attributes block →
  ¬ (ast.Name a = "description" ∧ validateDescription a = Returns (Some a)) →
  ∃ errs,
    parseScriptBlock ValueAsStringList block = Returns (None, Some errs)
    ∧ errors.E (if String.eqb (ast.Name a) "description"
                then ErrScriptInvalidDesc else ErrScriptUnknownAttr)
        (ast.NameRange a) None ∈ errs.
Proof.
  intros Hp Ha Hinvalid. rewrite parseScriptBlock_eq, Hp.
  destruct (scriptResult_reports_attribute returnsDescription
              (returnsCommand ValueAsStringList)
              (returnedCommands ValueAsStringList) block a Ha)
    as (errs & Hres & He).
  - unfold validDescriptionAttr. apply andb_false_iff.
    destruct (String.eqb_spec (ast.Name a) "description") as [Hname|Hname];
      [right|by left].
    destruct (returnsDescription a) eqn:Hret; [|done].
    apply returnsDescription_true in Hret. by destruct Hinvalid.
  - exists errs. by rewrite Hres.
Qed.

(** X6. In a script block on which no validator panics, each nested
    block that is not a [job] makes [parseScriptBlock] return no script
    and a list of errors that holds an unknown-block error naming its
    type, and each error that [validateScriptJobBlock] returns for a
    nested [job] block is in that list: the errors of the jobs are
    reported one by one. *)
Theorem nested_block_errors_are_reported block nb :
  scriptPanics block = false →
  nb ∈ ast.Blocks block →
  (ast.Type_ nb ≠ "job" →
   ∃ errs,
     parseScriptBlock ValueAsStringList block = Returns (None, Some errs)
     ∧ errors.E ErrScriptUnknownBlock (ast.TypeRange nb) (Some (ast.Type_ nb)) ∈ errs)
  ∧ (ast.Type_ nb = "job" →
     ∀ r nested e,
       validateScriptJobBlock ValueAsStringList nb = Returns (r, Some nested) →
       e ∈ nested →
       ∃ errs,
         parseScriptBlock ValueAsStringList block = Returns (None, Some errs)
         ∧ e ∈ errs).
Proof.
  intros Hp Hnb. rewrite parseScriptBlock_eq, Hp.
  destruct (scriptResult_reports_block returnsDescription
              (returnsCommand ValueAsStringList)
              (returnedCommands ValueAsStringList) block nb Hnb)
    as [Hunknown Hjob].
  split.
  - intros Htype. destruct (Hunknown Htype) as (errs & Hres & He).
    exists errs. by rewrite Hres.
  - intros Htype r nested e Hret He.
    rewrite validateScriptJobBlock_eq in Hret.
    destruct (jobPanics nb); [done|]. injection Hret as Hret.
    destruct (Hjob Htype nested e) as (errs & Hres & He'); [by rewrite Hret|done|].
    exists errs. by rewrite Hres.
Qed.

(** X7. [validateScriptJobBlock] returns a list of errors that holds the
    conflict of [command] and [commands] iff no [commands] attribute of
    the block makes [validateCommands] panic and the block has a
    [command] that [validateCommand] returns and a [commands] for which
    [validateCommands] returns a list: next to an invalid one no conflict
    is reported. In a block on which [validateCommands] does not panic,
    each attribute that is neither makes [validateScriptJobBlock] return
    no job and a list of errors that holds an error of its own at the
    range of its name: invalid command for a [command], invalid commands
    for a [commands], unknown attribute otherwise. *)
Theorem conflict_is_reported_iff block :
  ((∃ r errs,
      validateScriptJobBlock ValueAsStringList block = Returns (r, Some errs)
      ∧ errors.E ErrScriptCmdConflict (ast.TypeRange block) None ∈ errs)
   ↔ (¬ ∃ a, a ∈ ast.Attributes block
             ∧ ast.Name a = "commands"
             ∧ validateCommands ValueAsStringList a = Panics)
     ∧ (∃ a, a ∈ ast.Attributes block
             ∧ ast.Name a = "command"
             ∧ validateCommand ValueAsStringList a = Returns (Some a))
     ∧ (∃ a, a ∈ ast.Attributes block
             ∧ ast.Name a = "commands"
             ∧ ∃ cs, validateCommands ValueAsStringList a = Returns (Some cs)))
  ∧ ((¬ ∃ a, a ∈ ast.Attributes block
             ∧ ast.Name a = "commands"
             ∧ validateCommands ValueAsStringList a = Panics) →
     ∀ a, a ∈ ast.Attributes block →
          ¬ ((ast.Name a = "command"
              ∧ validateCommand ValueAsStringList a = Returns (Some a))
             ∨ (ast.Name a = "commands"
                ∧ ∃ cs, validateCommands ValueAsStringList a = Returns (Some cs))) →
          ∃ errs,
            validateScriptJobBlock ValueAsStringList block = Returns (None, Some errs)
            ∧ errors.E (if String.eqb (ast.Name a) "command" then ErrScriptInvalidCmd
                        else if String.eqb (ast.Name a) "commands"
                             then ErrScriptInvalidCmds
                             else ErrScriptUnknownAttr)
                (ast.NameRange a) (Some (ast.Name a)) ∈ errs).
Proof.
  rewrite <- validateScriptJobBlock_panics.
  rewrite validateScriptJobBlock_eq. destruct (jobPanics block) eqn:Hp.
  { split; [|by intros []]. split; [by intros (? & ? & ? & ?)|by intros [[] _]]. }
  split.
  - pose proof (jobResult_conflict_iff (returnsCommand ValueAsStringList)
                  (returnedCommands ValueAsStringList) block) as Hiff.
    split.
    + intros (r & errs & [= Hres] & He). split; [done|].
      destruct Hiff as [Hiff _].
      destruct Hiff as [(a & Ha & Hname & Hret) (a' & Ha' & Hname' & [cs Hcs])].
      { exists errs. by rewrite Hres. }
      split.
      * exists a. by rewrite <- returnsCommand_true.
      * exists a'. split; [done|]. split; [done|]. exists cs.
        by apply returnedCommands_Some.
    + intros (_ & (a & Ha & Hname & Hret) & (a' & Ha' & Hname' & cs & Hcs)).
      destruct Hiff as [_ Hiff]. destruct Hiff as (errs & Herrs & He).
      { split.
        - exists a. by rewrite returnsCommand_true.
        - exists a'. split; [done|]. split; [done|]. exists cs.
          by apply returnedCommands_Some. }
      destruct (jobResult _ _ block) as [r err]. simpl in Herrs. subst err. eauto.
  - intros _ a Ha Hinvalid.
    destruct (jobErrors_reported (returnsCommand ValueAsStringList)
                (returnedCommands ValueAsStringList) block
                (errors.E (if String.eqb (ast.Name a) "command" then ErrScriptInvalidCmd
                           else if String.eqb (ast.Name a) "commands"
                                then ErrScriptInvalidCmds
                                else ErrScriptUnknownAttr)
                   (ast.NameRange a) (Some (ast.Name a))))
      as (errs & Hres & He).
    + unfold jobErrors. apply elem_of_app; left.
      apply (elem_of_flat_map _ _ a); [done|].
      unfold jobAttributeErrors.
      destruct (String.eqb_spec (ast.Name a) "command") as [Hname|Hname].
      * destruct (returnsCommand ValueAsStringList a) eqn:Hret.
        { apply returnsCommand_true in Hret. destruct Hinvalid. by left. }
        by apply list_elem_of_singleton.
      * destruct (String.eqb_spec (ast.Name a) "commands") as [Hname'|Hname'].
        { destruct (returnedCommands ValueAsStringList a) as [cs|] eqn:Hret.
          - apply returnedCommands_Some in Hret. destruct Hinvalid. right. eauto.
          - by apply list_elem_of_singleton. }
        by apply list_elem_of_singleton.
    + exists errs. by rewrite Hres.
Qed.

End ScriptProperties.

(** ** Memoized commits and repository *)

Section Memoization.

Variable ErrCurrentHeadIsOutOfDate : string.

Lemma headCommit_memo_field p head p1 :
  headCommit p = Done head p1 → git_headCommit p1 = head.
Proof.
  unfold headCommit.
  destruct (String.eqb (git_headCommit p) ""); simpl.
  - destruct (git.RevParse (git_wrapper p) "HEAD"); [|done]. by intros [= <- <-].
  - by intros [= <- <-].
Qed.

Lemma remoteDefaultCommit_memo_field p remoteDefault p2 :
  remoteDefaultCommit p = Done remoteDefault p2 →
  git_remoteDefaultBranchCommit p2 = remoteDefault.
Proof.
  unfold remoteDefaultCommit.
  destruct (String.eqb (git_remoteDefaultBranchCommit p) ""); simpl.
  - destruct (git.FetchRemoteRev _ _ _); [|done]. by intros [= <- <-].
  - by intros [= <- <-].
Qed.

(** X8. Once [headCommit] has returned a non-empty commit, a later call
    of [headCommit] returns that commit, whatever git would now answer: it
    reads the memo and leaves the project as it is. This is about
    [headCommit] alone: [defaultBaseRev] resolves HEAD by itself. *)
Theorem headCommit_is_never_recomputed p head p1 gw :
  headCommit p = Done head p1 →
  head ≠ "" →
  headCommit (set_wrapper gw p1) = Done head (set_wrapper gw p1).
Proof.
  intros Hmemo%headCommit_memo_field Hne%String.eqb_neq.
  unfold headCommit. simpl. by rewrite Hmemo, Hne.
Qed.

(** X9. Once [remoteDefaultCommit] has returned a non-empty commit, it
    returns that commit from then on, whatever the remote would now
    answer: the remote default branch is never fetched a second time. *)
Theorem remoteDefaultCommit_is_never_recomputed p remoteDefault p2 gw :
  remoteDefaultCommit p = Done remoteDefault p2 →
  remoteDefault ≠ "" →
  remoteDefaultCommit (set_wrapper gw p2) = Done remoteDefault (set_wrapper gw p2).
Proof.
  intros Hmemo%remoteDefaultCommit_memo_field Hne%String.eqb_neq.
  unfold remoteDefaultCommit. simpl. by rewrite Hmemo, Hne.
Qed.

Lemma headCommit_stable p1 head p2 :
  headCommit p1 = Done head p1 →
  git_wrapper p2 = git_wrapper p1 →
  git_headCommit p2 = git_headCommit p1 →
  headCommit p2 = Done head p2.
Proof.
  unfold headCommit. intros Hhead Hgw Hmemo. rewrite Hmemo, Hgw.
  destruct (String.eqb (git_headCommit p1) "") eqn:Hempty; simpl in *.
  - destruct (git.RevParse (git_wrapper p1) "HEAD") as [val|]; [|done].
    injection Hhead as <- Hp1. f_equal.
    apply (f_equal git_headCommit) in Hp1. simpl in Hp1.
    destruct p2; unfold set_headCommit; simpl in *. congruence.
  - by injection Hhead as <-.
Qed.

Lemma check_returns p verdict p2 :
  checkRemoteDefaultBranchIsReachable ErrCurrentHeadIsOutOfDate p = Done verdict p2 →
  ∃ head remoteDefault p1,
    headCommit p = Done head p1 ∧ remoteDefaultCommit p1 = Done remoteDefault p2.
Proof.
  intros Hcheck.
  destruct (headCommit p) as [head p1|e] eqn:Hhead.
  - destruct (remoteDefaultCommit p1) as [remoteDefault p2'|e] eqn:Hremote.
    + rewrite (check_unfold _ _ _ _ _ _ Hhead Hremote) in Hcheck.
      exists head, remoteDefault, p1. split; [done|].
      destruct (git.MergeBase _ _ _) as [m|]; [destruct (String.eqb m remoteDefault)|];
        by injection Hcheck as _ <-.
    + unfold checkRemoteDefaultBranchIsReachable, mbind, M_bind in Hcheck.
      by rewrite Hhead, Hremote in Hcheck.
  - unfold checkRemoteDefaultBranchIsReachable, mbind, M_bind in Hcheck.
    by rewrite Hhead in Hcheck.
Qed.

(** X10. [checkRemoteDefaultBranchIsReachable] can be repeated: run again on
    the project it returned, it gives the same verdict and leaves the
    project as it is. *)
Theorem check_is_repeatable p verdict p2 :
  checkRemoteDefaultBranchIsReachable ErrCurrentHeadIsOutOfDate p = Done verdict p2 →
  checkRemoteDefaultBranchIsReachable ErrCurrentHeadIsOutOfDate p2 = Done verdict p2.
Proof.
  intros Hcheck.
  destruct (check_returns _ _ _ Hcheck) as (head & remoteDefault & p1 & Hhead & Hremote).
  destruct (headCommit_memo _ _ _ Hhead) as (Hhead1 & Hgw1 & _ & _).
  destruct (remoteDefaultCommit_memo _ _ _ Hremote) as (Hremote2 & Hgw2 & Hmemo2).
  pose proof (headCommit_stable _ _ _ Hhead1 Hgw2 Hmemo2) as Hhead2.
  rewrite (check_unfold _ _ _ _ _ _ Hhead Hremote) in Hcheck.
  rewrite (check_unfold _ _ _ _ _ _ Hhead2 Hremote2).
  by rewrite Hgw2, Hgw1.
Qed.

(** X11. With both commits memoized, [checkRemoteDefaultBranchIsReachable]
    resolves nothing: it never fails fatally, leaves the project as it is,
    and its verdict is that of the merge-base of the memoized commits,
    whatever HEAD and the remote branch now resolve to. *)
Theorem check_uses_memoized_commits p gw :
  git_headCommit p ≠ "" →
  git_remoteDefaultBranchCommit p ≠ "" →
  (∀ a b, git.MergeBase gw a b = git.MergeBase (git_wrapper p) a b) →
  checkRemoteDefaultBranchIsReachable ErrCurrentHeadIsOutOfDate (set_wrapper gw p)
  = Done
      (match git.MergeBase (git_wrapper p)
               (git_headCommit p) (git_remoteDefaultBranchCommit p) with
       | git.Ok mergeBase =>
           if String.eqb mergeBase (git_remoteDefaultBranchCommit p) then None
           else Some (outOfDateErr ErrCurrentHeadIsOutOfDate)
       | git.Err _ => Some (outOfDateErr ErrCurrentHeadIsOutOfDate)
       end)
      (set_wrapper gw p).
Proof.
  intros Hhead%String.eqb_neq Hremote%String.eqb_neq Hmerge.
  assert (headCommit (set_wrapper gw p)
          = Done (git_headCommit p) (set_wrapper gw p)) as Hh.
  { unfold headCommit. simpl. by rewrite Hhead. }
  assert (remoteDefaultCommit (set_wrapper gw p)
          = Done (git_remoteDefaultBranchCommit p) (set_wrapper gw p)) as Hr.
  { unfold remoteDefaultCommit. simpl. by rewrite Hremote. }
  rewrite (check_unfold _ _ _ _ _ _ Hh Hr). simpl. rewrite Hmerge.
  destruct (git.MergeBase _ _ _) as [m|]; [|done].
  by destruct (String.eqb m _).
Qed.

Variable NormalizeGitURI : string → string.

(** X12. [prettyRepo] returns what it leaves in [normalizedRepo], touches no
    other field the git methods read, and called again returns the same
    string and changes nothing more. *)
Theorem prettyRepo_is_memoized p :
  let (repo, p') := prettyRepo NormalizeGitURI p in
  normalizedRepo p' = repo
  ∧ prettyRepo NormalizeGitURI p' = (repo, p')
  ∧ git_wrapper p' = git_wrapper p
  ∧ gitcfg p' = gitcfg p
  ∧ isRepo p' = isRepo p
  ∧ git_headCommit p' = git_headCommit p
  ∧ git_remoteDefaultBranchCommit p' = git_remoteDefaultBranchCommit p.
Proof.
  unfold prettyRepo.
  destruct (String.eqb (normalizedRepo p) "") eqn:Hmemo; simpl.
  - destruct (isRepo p) eqn:Hrepo.
    + destruct (git.URL (git_wrapper p) (hcl.DefaultRemote (gitcfg p)))
        as [repoURL|e] eqn:Hurl; simpl.
      * repeat split; try done. rewrite Hrepo, Hurl.
        by destruct (String.eqb (NormalizeGitURI repoURL) "").
      * repeat split; try done. by rewrite Hmemo, Hrepo, Hurl.
    + repeat split; try done. by rewrite Hmemo, Hrepo.
  - repeat split; try done. by rewrite Hmemo.
Qed.

(** X13. [prettyRepo] never fails, and returns a non-empty string only when
    one is memoized already or the project is a repository whose default
    remote has a URL that normalizes to it. *)
Theorem prettyRepo_nonempty p :
  (prettyRepo NormalizeGitURI p).1 ≠ "" ↔
    normalizedRepo p ≠ ""
    ∨ (isRepo p = true
       ∧ ∃ repoURL,
           git.URL (git_wrapper p) (hcl.DefaultRemote (gitcfg p)) = git.Ok repoURL
           ∧ NormalizeGitURI repoURL ≠ "").
Proof.
  unfold prettyRepo.
  destruct (String.eqb_spec (normalizedRepo p) "") as [Hmemo|Hmemo]; simpl.
  - destruct (isRepo p).
    + destruct (git.URL _ _) as [repoURL|e]; simpl.
      * split; [intros ?; right; eauto|].
        intros [?|(_ & url & [= <-] & ?)]; done.
      * split; [done|]. intros [?|(_ & url & [=] & _)]. done.
    + split; [done|]. intros [?|(? & _)]; done.
  - split; [by left|done].
Qed.

End Memoization.

(** ** Configuration defaults, again *)

Section DefaultsAgain.

Variable defaultRemote defaultBranch defaultBranchBaseRef : string.
Variable NewGitConfig : hcl.GitConfig.

(** X14. [setDefaults] is idempotent: applied to the configuration it
    returned, it returns it again. *)
Theorem setDefaults_idempotent cfg :
  setDefaults defaultRemote defaultBranch defaultBranchBaseRef NewGitConfig
    (setDefaults defaultRemote defaultBranch defaultBranchBaseRef NewGitConfig cfg).1
  = setDefaults defaultRemote defaultBranch defaultBranchBaseRef NewGitConfig cfg.
Proof.
  assert (∀ x d : string,
            (if String.eqb (if String.eqb x "" then d else x) ""
             then d else if String.eqb x "" then d else x)
            = (if String.eqb x "" then d else x)) as Hfill.
  { intros x d. destruct (String.eqb x "") eqn:Hx; [|by rewrite Hx].
    by destruct (String.eqb d ""). }
  unfold setDefaults. cbv zeta. simpl. by rewrite !Hfill.
Qed.

(** X15. [setDefaults] does not override what is configured: each option of
    an existing git block that is not empty is kept, and only the empty
    ones get the package defaults. *)
Theorem setDefaults_keeps_configured cfg g :
  hcl.git_of cfg = Some g →
  ∃ g',
    hcl.git_of
      (setDefaults defaultRemote defaultBranch defaultBranchBaseRef NewGitConfig cfg).1
    = Some g'
    ∧ hcl.DefaultRemote g'
      = (if String.eqb (hcl.DefaultRemote g) "" then defaultRemote
         else hcl.DefaultRemote g)
    ∧ hcl.DefaultBranch g'
      = (if String.eqb (hcl.DefaultBranch g) "" then defaultBranch
         else hcl.DefaultBranch g)
    ∧ hcl.DefaultBranchBaseRef g'
      = (if String.eqb (hcl.DefaultBranchBaseRef g) "" then defaultBranchBaseRef
         else hcl.DefaultBranchBaseRef g).
Proof.
  unfold hcl.git_of, setDefaults. cbv zeta.
  destruct (hcl.cfg_Terramate cfg) as [tm|]; [|done]. simpl.
  destruct (hcl.tm_Config tm) as [rc|]; [|done]. simpl.
  intros ->. eexists. by split.
Qed.

End DefaultsAgain.

(** ** The base revision, again *)


(** X17. On a detached HEAD (no current branch) at the remote default
    commit, [defaultBaseRev] returns the remote default ref: the checkout
    counts as a new, empty branch (case 2), not as the latest commit of
    the default branch (case 3). *)
Theorem detached_head_at_remote_default p :
  headIsRemoteDefault (observe p) = true →
  currentBranch (observe p) = None →
  defaultBaseRev p = remoteDefaultBranchRef p.
Proof.
  intros Hsame Hbranch. unfold defaultBaseRev. cbv zeta.
  rewrite isRemoteDefaultRev_observed, isDefaultBranch_observed, Hsame.
  unfold onDefaultBranch. by rewrite Hbranch.
Qed.

(** ** The remote check, again *)

Lemma findRemote_filter name remotes :
  findRemote name (filter (λ r, git.Name r = name) remotes) = findRemote name remotes.
Proof.
  induction remotes as [|x rest IH]; [done|]. simpl.
  destruct (String.eqb_spec (git.Name x) name) as [Hx|Hx].
  - rewrite filter_cons_True by done. simpl.
    by rewrite (proj2 (String.eqb_eq _ _) Hx).
  - by rewrite filter_cons_False.
Qed.

(** X18. [checkDefaultRemote] looks only at the remotes named like the
    configured default remote: two listings that agree on these remotes,
    in their order, get the same answer. *)
Theorem checkDefaultRemote_other_remotes defaultRemote p p' remotes remotes' :
  gitcfg p' = gitcfg p →
  git.Remotes (git_wrapper p) = git.Ok remotes →
  git.Remotes (git_wrapper p') = git.Ok remotes' →
  filter (λ r, git.Name r = hcl.DefaultRemote (gitcfg p)) remotes'
  = filter (λ r, git.Name r = hcl.DefaultRemote (gitcfg p)) remotes →
  checkDefaultRemote defaultRemote p' = checkDefaultRemote defaultRemote p.
Proof.
  intros Hcfg Hremotes Hremotes' Hsame. unfold checkDefaultRemote.
  rewrite Hremotes, Hremotes', Hcfg.
  by rewrite <- (findRemote_filter _ remotes'), Hsame, findRemote_filter.
Qed.

(** ** Test helpers *)

Lemma append_empty_r (s : string) : s +:+ "" = s.
Proof.
  induction s as [|c s IH]; [done|].
  change (String c (s +:+ "") = String c s). by rewrite IH.
Qed.

Lemma append_assoc (s t u : string) : (s +:+ t) +:+ u = s +:+ (t +:+ u).
Proof.
  induction s as [|c s IH]; [done|].
  change (String c ((s +:+ t) +:+ u) = String c (s +:+ (t +:+ u))). by rewrite IH.
Qed.

Lemma echoLoop_Join n i rest :
  i + length rest = n →
  echoLoop n i rest = Join rest " ".
Proof.
  revert i. induction rest as [|arg rest IH]; intros i Hn; [done|].
  simpl in *. rewrite (IH (S i)) by lia.
  destruct rest as [|arg' rest].
  - simpl in *. assert (Nat.ltb (i + 1) n = false) as ->.
    { apply Nat.ltb_ge. lia. }
    simpl. by rewrite append_empty_r.
  - assert (Nat.ltb (i + 1) n = true) as ->.
    { apply Nat.ltb_lt. simpl in Hn. lia. }
    done.
Qed.

(** X19. The [echo] subcommand of the test helper prints its arguments
    joined by single spaces and ends the line: the loop is
    [strings.Join(args, " ")] followed by a newline, with no trailing
    space. *)
Theorem echo_is_Join args :
  echo args = Join args " " +:+ String "010"%char "".
Proof. unfold echo. by rewrite (echoLoop_Join (length args) 0 args). Qed.

(** X20. For a non-empty list of stacks, [nljoin] of the tests is each path
    followed by a newline, the output of the list command; for no stack
    it is a lone newline while the command prints nothing. *)
Theorem nljoin_printStacks stacks :
  stacks ≠ [] →
  nljoin stacks = printStacks stacks
  ∧ nljoin [] ≠ printStacks [].
Proof.
  intros Hne. split; [|done]. unfold nljoin.
  induction stacks as [|p rest IH]; [done|].
  destruct rest as [|p' rest]; [done|].
  change (Join (p :: p' :: rest) (String "010"%char ""))
    with (p +:+ String "010"%char "" +:+ Join (p' :: rest) (String "010"%char "")).
  change (printStacks (p :: p' :: rest))
    with (p +:+ String "010"%char (printStacks (p' :: rest))).
  rewrite <- IH by done. by rewrite !append_assoc.
Qed.


(** ** The added properties on concrete inputs *)

(** Scenarios of [TestHCLScript]. *)
Example script_with_unrecognized_blocks :
  parseScriptBlock stringList (scriptOf [someDescription] [block1; block1])
  = Returns
      (None,
       Some [errors.E ErrScriptUnknownBlock (rangeAt 4 8 75 4 14 81) (Some "block1");
             errors.E ErrScriptUnknownBlock (rangeAt 4 8 75 4 14 81) (Some "block1")]).
Proof. reflexivity. Qed.

Example script_without_a_description_attr :
  parseScriptBlock stringList (scriptOf [] [])
  = Returns
      (None,
       Some [errors.E ErrScriptNoAttrs (rangeAt 2 33 33 2 34 34) None;
             errors.E ErrScriptNoBlocks (rangeAt 2 7 7 2 13 13) None]).
Proof. reflexivity. Qed.

Example script_with_an_empty_description_attr :
  parseScriptBlock stringList (scriptOf [emptyDescription] [])
  = Returns
      (None,
       Some [errors.E ErrScriptInvalidDesc (rangeAt 3 9 43 3 20 54) None;
             errors.E ErrScriptNoBlocks (rangeAt 2 7 7 2 13 13) None]).
Proof. reflexivity. Qed.

Example script_with_job_command_and_commands :
  parseScriptBlock stringList
    (scriptOf [someDescription] [jobBlock [echoHello; helloBye]])
  = Returns (None, Some [errors.E ErrScriptCmdConflict (rangeAt 4 7 81 4 10 84) None]).
Proof. reflexivity. Qed.

Example script_with_invalid_command :
  parseScriptBlock stringList (scriptOf [someDescription] [jobBlock [invalidCommand]])
  = Returns
      (None,
       Some [errors.E ErrScriptInvalidCmd (rangeAt 5 8 97 5 15 104) (Some "command")]).
Proof. reflexivity. Qed.

Example script_with_invalid_commands :
  parseScriptBlock stringList (scriptOf [someDescription] [jobBlock [invalidCommands]])
  = Returns
      (None,
       Some [errors.E ErrScriptInvalidCmds (rangeAt 5 8 97 5 16 105) (Some "commands")]).
Proof. reflexivity. Qed.

Example script_with_multiple_jobs :
  parseScriptBlock stringList
    (scriptOf [someDescription] [jobBlock [helloBye]; jobBlock [echoHello]])
  = Returns
      (Some (mkScript ["group1"; "script1"] (Some someDescription)
               [Some (mkScriptJob None (Some [["echo"; "hello"]; ["echo"; "bye"]]));
                Some (mkScriptJob (Some echoHello) None)]),
       None).
Proof. reflexivity. Qed.

(** Not in the tests: [description = 1] passes the check of the
    diagnostics and panics in [val.AsString()]; [commands = "ls"] is
    given the wrong-type error and then panics in [val.AsValueSlice()],
    also next to a valid [command]. *)
Example script_with_a_number_description :
  validateDescription numberDescription = Panics
  ∧ parseScriptBlock stringList (scriptOf [numberDescription] [jobBlock [echoHello]])
    = Panics.
Proof. split; reflexivity. Qed.

Example job_with_string_commands :
  validateCommands stringList stringCommands = Panics
  ∧ validateScriptJobBlock stringList (jobBlock [echoHello; stringCommands]) = Panics
  ∧ parseScriptBlock stringList
      (scriptOf [someDescription] [jobBlock [echoHello; stringCommands]])
    = Panics.
Proof. repeat split; reflexivity. Qed.

Lemma accepted_job_is_exclusive_witness :
  ¬ (is_Some (job_Command (mkScriptJob (Some echoHello) None))
     ∧ is_Some (job_Commands (mkScriptJob (Some echoHello) None))).
Proof.
  apply (accepted_job_is_exclusive stringList
           (jobBlock [echoHello]) (mkScriptJob (Some echoHello) None) None).
  reflexivity.
Defined.

Lemma accepted_script_contents_witness :
  length [Some (mkScriptJob (Some echoHello) None)]
  = length (ast.Blocks (scriptOf [someDescription] [jobBlock [echoHello]])).
Proof.
  apply (accepted_script_contents stringList
           (scriptOf [someDescription] [jobBlock [echoHello]])
           (mkScript ["group1"; "script1"] (Some someDescription)
              [Some (mkScriptJob (Some echoHello) None)])
           None).
  reflexivity.
Defined.

Lemma invalid_attribute_is_reported_witness :
  ∃ errs,
    parseScriptBlock stringList
      (scriptOf [someDescription; unknownAttr] [jobBlock [echoHello]])
    = Returns (None, Some errs)
    ∧ errors.E ErrScriptUnknownAttr (rangeAt 4 9 84 4 20 95) None ∈ errs.
Proof.
  apply (invalid_attribute_is_reported stringList
           (scriptOf [someDescription; unknownAttr] [jobBlock [echoHello]])
           unknownAttr).
  - reflexivity.
  - apply elem_of_cons. right. apply elem_of_cons. by left.
  - intros [Hname _]. discriminate Hname.
Defined.

Lemma nested_block_errors_are_reported_witness :
  ∃ errs,
    parseScriptBlock stringList
      (scriptOf [someDescription] [jobBlock [echoHello]; block1])
    = Returns (None, Some errs)
    ∧ errors.E ErrScriptUnknownBlock (rangeAt 4 8 75 4 14 81) (Some "block1") ∈ errs.
Proof.
  apply (nested_block_errors_are_reported stringList
           (scriptOf [someDescription] [jobBlock [echoHello]; block1]) block1).
  - reflexivity.
  - apply elem_of_cons. right. apply elem_of_cons. by left.
  - discriminate.
Defined.

Lemma headCommit_is_never_recomputed_witness :
  headCommit (set_wrapper (failing notARepository) (set_headCommit "f00d" featureBranch))
  = Done "f00d"
      (set_wrapper (failing notARepository) (set_headCommit "f00d" featureBranch)).
Proof.
  apply (headCommit_is_never_recomputed featureBranch "f00d"
           (set_headCommit "f00d" featureBranch) (failing notARepository)).
  - reflexivity.
  - discriminate.
Defined.

Lemma remoteDefaultCommit_is_never_recomputed_witness :
  remoteDefaultCommit
    (set_wrapper (failing notARepository)
       (set_remoteDefaultBranchCommit "c0de" featureBranch))
  = Done "c0de"
      (set_wrapper (failing notARepository)
         (set_remoteDefaultBranchCommit "c0de" featureBranch)).
Proof.
  apply (remoteDefaultCommit_is_never_recomputed featureBranch "c0de"
           (set_remoteDefaultBranchCommit "c0de" featureBranch)
           (failing notARepository)).
  - reflexivity.
  - discriminate.
Defined.

Lemma check_is_repeatable_witness :
  checkRemoteDefaultBranchIsReachable "ErrCurrentHeadIsOutOfDate"
    (set_remoteDefaultBranchCommit "c0de" (set_headCommit "0ld1" behindMain))
  = Done (Some (outOfDateErr "ErrCurrentHeadIsOutOfDate"))
      (set_remoteDefaultBranchCommit "c0de" (set_headCommit "0ld1" behindMain)).
Proof.
  apply (check_is_repeatable "ErrCurrentHeadIsOutOfDate" behindMain).
  reflexivity.
Defined.

Lemma check_uses_memoized_commits_witness :
  checkRemoteDefaultBranchIsReachable "ErrCurrentHeadIsOutOfDate"
    (set_wrapper headMoved
       (set_remoteDefaultBranchCommit "c0de" (set_headCommit "f00d" featureBranch)))
  = Done None
      (set_wrapper headMoved
         (set_remoteDefaultBranchCommit "c0de" (set_headCommit "f00d" featureBranch))).
Proof.
  apply (check_uses_memoized_commits "ErrCurrentHeadIsOutOfDate"
           (set_remoteDefaultBranchCommit "c0de" (set_headCommit "f00d" featureBranch))
           headMoved).
  - discriminate.
  - discriminate.
  - reflexivity.
Defined.

Lemma setDefaults_keeps_configured_witness :
  ∃ g',
    hcl.git_of (setDefaults "origin" "main" "HEAD^" exampleConfig upstreamOnly).1
    = Some g'
    ∧ hcl.DefaultRemote g' = "upstream"
    ∧ hcl.DefaultBranch g' = "main"
    ∧ hcl.DefaultBranchBaseRef g' = "HEAD^".
Proof.
  apply (setDefaults_keeps_configured "origin" "main" "HEAD^" exampleConfig
           upstreamOnly (hcl.mkGitConfig "" "" "upstream")).
  reflexivity.
Defined.


Lemma detached_head_at_remote_default_witness :
  defaultBaseRev detachedAtMain = remoteDefaultBranchRef detachedAtMain.
Proof.
  apply (detached_head_at_remote_default detachedAtMain); reflexivity.
Defined.

Lemma checkDefaultRemote_other_remotes_witness :
  checkDefaultRemote "origin" twoRemotes = checkDefaultRemote "origin" featureBranch.
Proof.
  apply (checkDefaultRemote_other_remotes "origin" featureBranch twoRemotes
           [originRemote] [git.mkRemote "upstream" ["trunk"]; originRemote]);
    reflexivity.
Defined.

Lemma nljoin_printStacks_witness :
  nljoin ["s1"; "s2"] = printStacks ["s1"; "s2"].
Proof. apply (nljoin_printStacks ["s1"; "s2"]). discriminate. Defined.
